(** * walk.DataBinder: a shallow embedding and its verification

    The development follows [databinder.go] of the walk GUI toolkit: a
    [DataBinder] keeps widget properties and the fields of a data source in
    step.  Go values, the reflection calls the binder makes, the properties
    and their change events are modelled as data; the binder's methods are
    written in a small state monad over the whole world (heap, property
    store, event handlers, binder, observable trace) in which a Go run-time
    panic is an explicit outcome. *)

From Stdlib Require Import ZArith String Ascii List Bool Lia.
From Stdlib Require Import Floats.SpecFloat.
From stdpp Require Import base option list functions gmap strings.

Set Warnings "-register-all".

Local Open Scope string_scope.
Local Open Scope Z_scope.

(** ** Go types and values *)

(** The integer and floating-point kinds of [reflect.Kind]. *)
Inductive IntKind :=
| KInt | KInt8 | KInt16 | KInt32 | KInt64
| KUint | KUint8 | KUint16 | KUint32 | KUint64 | KUintptr.

Inductive FloatKind := KFloat32 | KFloat64.

(** Kinds whose values are opaque references that may be nil. *)
Inductive RefKind := KSlice | KMap | KChan | KFunc.

(** [reflect.Kind], as far as the binder can tell kinds apart. *)
Inductive Kind :=
| KBool | KNum (k : IntKind) | KFloat (k : FloatKind) | KString
| KPtr | KStruct | KInterface | KRef (k : RefKind).

#[global] Instance IntKind_eq_dec : EqDecision IntKind.
Proof. solve_decision. Defined.
#[global] Instance FloatKind_eq_dec : EqDecision FloatKind.
Proof. solve_decision. Defined.
#[global] Instance RefKind_eq_dec : EqDecision RefKind.
Proof. solve_decision. Defined.
#[global] Instance Kind_eq_dec : EqDecision Kind.
Proof. solve_decision. Defined.

(** Which type of its kind a value has: the predeclared one ([int],
    [float64], [string], ...), a defined type ([type Celsius int],
    [type Person struct {...}]) or an unnamed composite type, told apart
    from the others of its kind by a description ([*Person], [[]int]). *)
Inductive GoType :=
| TBasic
| TDefined (name : string)
| TLit (descr : string).

#[global] Instance GoType_eq_dec : EqDecision GoType.
Proof. solve_decision. Defined.

Definition int_kind_name (k : IntKind) : string :=
  match k with
  | KInt => "int" | KInt8 => "int8" | KInt16 => "int16" | KInt32 => "int32"
  | KInt64 => "int64" | KUint => "uint" | KUint8 => "uint8"
  | KUint16 => "uint16" | KUint32 => "uint32" | KUint64 => "uint64"
  | KUintptr => "uintptr"
  end.

Definition kind_name (k : Kind) : string :=
  match k with
  | KBool => "bool"
  | KNum k => int_kind_name k
  | KFloat KFloat32 => "float32"
  | KFloat KFloat64 => "float64"
  | KString => "string"
  | _ => ""
  end.

(** [reflect.Type.Name]: the name of a predeclared or defined type, the
    empty string for an unnamed type. *)
Definition type_name (k : Kind) (t : GoType) : string :=
  match t with
  | TBasic => kind_name k
  | TDefined n => n
  | TLit _ => ""
  end.

(** Heap addresses of the records the data source is made of. *)
Definition loc := nat.

(** Go's [error] values.  [ErrValidationFailed] is the binder's sentinel
    [errValidationFailed], [BindingError] is what [newError] builds,
    [OtherError] is any error a collaborator (a validator, a property
    setter) hands back. *)
Inductive error :=
| ErrValidationFailed
| BindingError (msg : string)
| OtherError (msg : string).

#[global] Instance error_eq_dec : EqDecision error.
Proof. solve_decision. Defined.

(** A dynamically typed, non-nil Go value.  The constructor fixes the kind,
    [GoType] the type within the kind, so [type Celsius int] holding 21 is
    [VInt KInt (TDefined "Celsius") 21].  Structs hold their fields in
    declaration order.  Slices, maps, channels and functions are opaque
    apart from being nil or not.  [VIface] is the content of a struct field
    of type [interface{}]; [VError] is a value whose dynamic type implements
    [error]. *)
Inductive value :=
| VBool (t : GoType) (b : bool)
| VInt (k : IntKind) (t : GoType) (n : Z)
| VFloat (k : FloatKind) (t : GoType) (f : spec_float)
| VString (t : GoType) (s : string)
| VError (e : error)
| VPtr (t : GoType) (target : option loc)
| VStruct (t : GoType) (fields : list (string * value))
| VRef (k : RefKind) (t : GoType) (isnil : bool)
| VIface (dyn : option value).

(** An [interface{}]: nil, or a value with its dynamic type. *)
Definition iface := option value.

Definition value_kind (v : value) : Kind :=
  match v with
  | VBool _ _ => KBool
  | VInt k _ _ => KNum k
  | VFloat k _ _ => KFloat k
  | VString _ _ => KString
  | VError _ => KPtr
  | VPtr _ _ => KPtr
  | VStruct _ _ => KStruct
  | VRef k _ _ => KRef k
  | VIface _ => KInterface
  end.

Definition value_type (v : value) : GoType :=
  match v with
  | VBool t _ | VInt _ t _ | VFloat _ t _ | VString t _ | VPtr t _
  | VStruct t _ | VRef _ t _ => t
  | VError _ => TLit "*walk.Error"
  | VIface _ => TLit "interface {}"
  end.

(** [v.Type().Name()]. *)
Definition value_type_name (v : value) : string :=
  type_name (value_kind v) (value_type v).

(** ** Collaborators: properties, widgets, events *)

(** A [Property] and a [Widget] are interface values compared by identity:
    here a number each, and [None] for the nil [Widget]. *)
Abbreviation Property := nat.
Abbreviation Widget := (option nat).

(** A handler attached to a property's [Changed()] event by the binder: the
    closure [func() { db.validateProperty(prop, widget) }] with the two
    variables it captured. *)
Record Handler := MkHandler { h_prop : Property; h_widget : Widget }.

(** What a property's setter does with a value, given the property's
    current one: the value the property holds afterwards, the error it
    returns, and whether it publishes its [Changed()] event. *)
Record SetOutcome := MkSetOutcome {
  set_value : iface;
  set_error : option error;
  set_changed : bool
}.

(** A property object.  [Get] returns [prop_value]; [Source()] and
    [Validator()] are fixed attributes; [prop_handlers] is the handler list
    of its [Changed()] event, a detached slot being [None]. *)
Record PropertyObj := MkPropertyObj {
  prop_value : iface;
  prop_source : iface;
  prop_validator : option (iface -> option error);
  prop_setter : iface -> iface -> SetOutcome;
  prop_handlers : list (option Handler)
}.

(** What an observer of the binder sees, in the order it happens. *)
Inductive Event :=
| EGet (p : Property)
| ESet (p : Property) (v : iface)
| EValidate (p : Property) (v : iface)
| EPresent (err : option error) (w : Widget)
| EPublish
| EFieldRead (l : loc) (name : string)
| EFieldWrite (l : loc) (name : string) (v : value).

(** ** The binder *)

(** [DataBinder].  A Go map that is only read, or written right after its
    [make], is a [gmap]; [widget2Property2Error], which [validateProperty]
    writes, is [None] while it is the nil map of a fresh binder.
    [errorPresenter] records whether a presenter is registered; the
    publisher's publications go to the trace. *)
Record DataBinder := MkDataBinder {
  dataSource : iface;
  boundWidgets : list Widget;
  properties : list Property;
  property2Widget : gmap Property Widget;
  property2ChangedHandle : gmap Property nat;
  widget2Property2Error : option (gmap Widget (gmap Property error));
  errorPresenter : bool
}.

(** [NewDataBinder]: the zero value. *)
Definition NewDataBinder : DataBinder :=
  MkDataBinder None [] [] ∅ ∅ None false.

(** Everything a call can read or change. *)
Record World := MkWorld {
  heap : gmap loc value;
  props : Property -> PropertyObj;
  widgets : nat -> list (string * Property);
  db : DataBinder;
  trace : list Event
}.

Definition set_heap (h : gmap loc value) (w : World) : World :=
  MkWorld h (props w) (widgets w) (db w) (trace w).
Definition set_props (ps : Property -> PropertyObj) (w : World) : World :=
  MkWorld (heap w) ps (widgets w) (db w) (trace w).
Definition set_db (d : DataBinder) (w : World) : World :=
  MkWorld (heap w) (props w) (widgets w) d (trace w).
Definition emit (e : Event) (w : World) : World :=
  MkWorld (heap w) (props w) (widgets w) (db w) (trace w ++ [e]).

(** ** Calls: state passing with panics *)

(** A call returns a result and a new world, or panics; Go errors are
    ordinary results. *)
Inductive Outcome (A : Type) :=
| Ret (a : A) (w : World)
| Panic (msg : string) (w : World).
Arguments Ret {A} a w.
Arguments Panic {A} msg w.

Definition M (A : Type) := World -> Outcome A.

Definition ret {A} (a : A) : M A := fun w => Ret a w.
Definition panic {A} (msg : string) : M A := fun w => Panic msg w.
Definition bind {A B} (m : M A) (k : A -> M B) : M B :=
  fun w => match m w with
           | Ret a w' => k a w'
           | Panic msg w' => Panic msg w'
           end.
Definition get_world : M World := fun w => Ret w w.
Definition modify (f : World -> World) : M unit := fun w => Ret tt (f w).

Notation "'let*' x ':=' m 'in' k" := (bind m (fun x => k))
  (at level 10, x name, m at level 100, k at level 200).
Notation "'run' m 'in' k" := (bind m (fun _ => k))
  (at level 10, m at level 100, k at level 200).

Definition final_world {A} (o : Outcome A) : World :=
  match o with Ret _ w | Panic _ w => w end.

Definition panicked {A} (o : Outcome A) : bool :=
  match o with Ret _ _ => false | Panic _ _ => true end.

(** ** Property and event operations *)

Definition with_value (v : iface) (o : PropertyObj) : PropertyObj :=
  MkPropertyObj v (prop_source o) (prop_validator o) (prop_setter o)
    (prop_handlers o).

Definition with_handlers (hs : list (option Handler)) (o : PropertyObj)
  : PropertyObj :=
  MkPropertyObj (prop_value o) (prop_source o) (prop_validator o)
    (prop_setter o) hs.

Definition update_prop (p : Property) (f : PropertyObj -> PropertyObj)
  (w : World) : World :=
  set_props (<[p := f (props w p)]> (props w)) w.
Arguments update_prop : simpl never.

(** [prop.Get()]. *)
Definition prop_Get (p : Property) : M iface :=
  fun w => Ret (prop_value (props w p)) (emit (EGet p) w).

(** Modelled from the spec: [Event.Attach], which is not among the source
    files ("a change-notification stream with attach/detach-by-handle
    semantics").  The handler goes to the end of the list and its index is
    the handle. *)
Definition event_Attach (p : Property) (h : Handler) : M nat :=
  fun w =>
    let hs := prop_handlers (props w p) in
    Ret (length hs) (update_prop p (with_handlers (hs ++ [Some h])) w).

(** Modelled from the spec: [Event.Detach], which is not among the source
    files.  The slot of the handle is cleared; a handle the event never
    gave out is an index out of range. *)
Definition event_Detach (p : Property) (handle : nat) : M unit :=
  fun w =>
    let hs := prop_handlers (props w p) in
    if decide (handle < length hs)%nat
    then Ret tt (update_prop p (with_handlers (<[handle := None]> hs)) w)
    else Panic "index out of range" w.

(** ** The validation ledger *)

Abbreviation Ledger := (gmap Widget (gmap Property error)).

(** Reading [db.widget2Property2Error]: a nil map reads as an empty one. *)
Definition ledger_of (d : DataBinder) : Ledger :=
  default ∅ (widget2Property2Error d).

Definition set_ledger (l : option Ledger) (d : DataBinder) : DataBinder :=
  MkDataBinder (dataSource d) (boundWidgets d) (properties d)
    (property2Widget d) (property2ChangedHandle d) l (errorPresenter d).

(** [db.widget2Property2Error[widget] = m], or [prop2Err[prop] = err] seen
    through the outer map that shares [prop2Err]: a write to a nil map
    panics. *)
Definition ledger_store (widget : Widget) (m : gmap Property error) : M unit :=
  fun w =>
    match widget2Property2Error (db w) with
    | None => Panic "assignment to entry in nil map" w
    | Some l => Ret tt (set_db (set_ledger (Some (<[widget := m]> l)) (db w)) w)
    end.

(** [delete(db.widget2Property2Error, widget)]: a no-op on a nil map. *)
Definition ledger_delete (widget : Widget) : M unit :=
  modify (fun w =>
    match widget2Property2Error (db w) with
    | None => w
    | Some l => set_db (set_ledger (Some (delete widget l)) (db w)) w
    end).

(** [len(db.widget2Property2Error) == 0]. *)
Definition ledger_empty (d : DataBinder) : bool :=
  bool_decide (size (ledger_of d) = 0%nat).

(** [db.CanSubmit()]. *)
Definition CanSubmit (d : DataBinder) : bool := ledger_empty d.

(** The tail of [validateProperty]: the presenter, when there is one, then
    the publication, when eligibility changed. *)
Definition present_and_publish (err : option error) (widget : Widget)
  (changed : bool) : M unit :=
  let* w := get_world in
  run (if errorPresenter (db w) then modify (emit (EPresent err widget))
       else ret tt) in
  if changed then modify (emit EPublish) else ret tt.

(** [db.validateProperty(prop, widget)]. *)
Definition validateProperty (prop : Property) (widget : Widget) : M unit :=
  let* w0 := get_world in
  match prop_validator (props w0 prop) with
  | None => ret tt
  | Some validate =>
    let prop2Err := ledger_of (db w0) !! widget in
    let* v := prop_Get prop in
    run modify (emit (EValidate prop v)) in
    match validate v with
    | Some err =>
      let changed := ledger_empty (db w0) in
      run ledger_store widget (<[prop := err]> (default ∅ prop2Err)) in
      present_and_publish (Some err) widget changed
    | None =>
      match prop2Err with
      | None => ret tt
      | Some m =>
        let m' := delete prop m in
        run ledger_store widget m' in
        let* changed :=
          (if decide (size m' = 0%nat)
           then run ledger_delete widget in
                let* w1 := get_world in ret (ledger_empty (db w1))
           else ret false) in
        present_and_publish None widget changed
      end
    end
  end.

(** ** Registration *)

(** A [for ... range] loop whose body returns nothing. *)
Fixpoint for_range {A} (l : list A) (body : A -> M unit) : M unit :=
  match l with
  | [] => ret tt
  | x :: l' => run body x in for_range l' body
  end.

(** [prop.Source().(string)]: the type assertion succeeds on a value whose
    dynamic type is the predeclared [string], whatever its content. *)
Definition as_string (i : iface) : option string :=
  match i with
  | Some (VString TBasic s) => Some s
  | _ => None
  end.

Definition set_session (ws : list Widget) (d : DataBinder) : DataBinder :=
  MkDataBinder (dataSource d) ws (properties d) ∅ ∅ (Some ∅)
    (errorPresenter d).

(** The three statements of the inner loop of [SetBoundWidgets] that touch
    the binder, for an accepted property; [handle] is what [Attach]
    returned. *)
Definition register (prop : Property) (widget : Widget) (handle : nat)
  (d : DataBinder) : DataBinder :=
  MkDataBinder (dataSource d) (boundWidgets d) (properties d ++ [prop])
    (<[prop := widget]> (property2Widget d))
    (<[prop := handle]> (property2ChangedHandle d))
    (widget2Property2Error d) (errorPresenter d).

(** [widget.BaseWidget().name2Property], in the order the [range] visits
    it; the call panics on the nil [Widget]. *)
Definition name2Property (widget : Widget) : M (list (string * Property)) :=
  fun w =>
    match widget with
    | None => Panic "invalid memory address or nil pointer dereference" w
    | Some i => Ret (widgets w i) w
    end.

(** The body of the inner loop of [SetBoundWidgets]: a property whose
    source is no string is skipped, any other is appended, recorded and
    subscribed to. *)
Definition bind_property (widget : Widget) (prop : Property) : M unit :=
  let* w := get_world in
  match as_string (prop_source (props w prop)) with
  | None => ret tt
  | Some _ =>
    let* handle := event_Attach prop (MkHandler prop widget) in
    modify (fun w => set_db (register prop widget handle (db w)) w)
  end.

(** The body of the outer loop. *)
Definition bind_widget (widget : Widget) : M unit :=
  let* n2p := name2Property widget in
  for_range n2p (fun np => bind_property widget np.2).

(** The first loop of [SetBoundWidgets], which ranges over a Go map: here
    in the order of [map_to_list]. *)
Definition detach_all : M unit :=
  let* w := get_world in
  for_range (map_to_list (property2ChangedHandle (db w)))
    (fun ph => event_Detach ph.1 ph.2).

(** [db.SetBoundWidgets(boundWidgets)]. *)
Definition SetBoundWidgets (ws : list Widget) : M unit :=
  run detach_all in
  run modify (fun w => set_db (set_session ws (db w)) w) in
  for_range ws bind_widget.

(** The property's [Changed()] event is published: every attached handler
    runs, that is, the binder validates the pair the handler captured. *)
Definition publish_Changed (p : Property) : M unit :=
  let* w := get_world in
  for_range (prop_handlers (props w p)) (fun h =>
    match h with
    | None => ret tt
    | Some h => validateProperty (h_prop h) (h_widget h)
    end).

(** [prop.Set(v)]: the setter decides what the property holds afterwards,
    whether the call fails, and whether [Changed()] is published. *)
Definition prop_Set (p : Property) (v : iface) : M (option error) :=
  let* w := get_world in
  let r := prop_setter (props w p) (prop_value (props w p)) v in
  run modify (emit (ESet p v)) in
  run modify (update_prop p (with_value (set_value r))) in
  run (if set_changed r then publish_Changed p else ret tt) in
  ret (set_error r).

(** The setters of the binder. *)
Definition SetDataSource (i : iface) : M unit :=
  modify (fun w => set_db
    (MkDataBinder i (boundWidgets (db w)) (properties (db w))
       (property2Widget (db w)) (property2ChangedHandle (db w))
       (widget2Property2Error (db w)) (errorPresenter (db w))) w).

Definition SetErrorPresenter (ep : bool) : M unit :=
  modify (fun w => set_db
    (MkDataBinder (dataSource (db w)) (boundWidgets (db w))
       (properties (db w)) (property2Widget (db w))
       (property2ChangedHandle (db w)) (widget2Property2Error (db w)) ep) w).

(** ** Reflection *)

(** Where a [reflect.Value] lives: nowhere the binder can write
    ([reflect.ValueOf] of an interface), a heap record, or a field of a
    heap record. *)
Inductive Place :=
| PNone
| PHeap (l : loc)
| PField (l : loc) (name : string).

(** A [reflect.Value]: the zero Value, or a value and its place. *)
Inductive RValue :=
| RInvalid
| RV (v : value) (pl : Place).

Definition reflect_ValueOf (i : iface) : RValue :=
  match i with
  | None => RInvalid
  | Some v => RV v PNone
  end.

Fixpoint lookup_field (name : string) (fields : list (string * value))
  : option value :=
  match fields with
  | [] => None
  | (n, v) :: fields' =>
    if decide (n = name) then Some v else lookup_field name fields'
  end.

Fixpoint update_field (name : string) (v : value)
  (fields : list (string * value)) : list (string * value) :=
  match fields with
  | [] => []
  | (n, v0) :: fields' =>
    if decide (n = name) then (n, v) :: fields'
    else (n, v0) :: update_field name v fields'
  end.

(** What a place holds now. *)
Definition load (pl : Place) (h : gmap loc value) : option value :=
  match pl with
  | PNone => None
  | PHeap l => h !! l
  | PField l name =>
    match h !! l with
    | Some (VStruct _ fields) => lookup_field name fields
    | _ => None
    end
  end.

(** A [reflect.Value] of a record or a field refers to memory: what it
    holds is read when it is used, so a write made in between is seen. *)
Definition rv_current (r : RValue) : M RValue :=
  fun w =>
    match r with
    | RInvalid => Ret RInvalid w
    | RV v pl => Ret (RV (default v (load pl (heap w))) pl) w
    end.

Definition rv_IsValid (r : RValue) : bool :=
  match r with RInvalid => false | RV _ _ => true end.

(** [r.Type().Kind()]: [Type] panics on the zero Value. *)
Definition rv_Kind (r : RValue) : M Kind :=
  let* r := rv_current r in
  match r with
  | RInvalid => panic "reflect: call of reflect.Value.Type on zero Value"
  | RV v _ => ret (value_kind v)
  end.

(** [r.Type().Name()]. *)
Definition rv_TypeName (r : RValue) : M string :=
  let* r := rv_current r in
  match r with
  | RInvalid => panic "reflect: call of reflect.Value.Type on zero Value"
  | RV v _ => ret (value_type_name v)
  end.

(** [r.IsNil()]: defined on pointers, interfaces, slices, maps, channels
    and functions, a panic on every other kind. *)
Definition rv_IsNil (r : RValue) : M bool :=
  let* r := rv_current r in
  match r with
  | RV (VPtr _ target) _ => ret (bool_decide (target = None))
  | RV (VError _) _ => ret false
  | RV (VRef _ _ isnil) _ => ret isnil
  | RV (VIface dyn) _ => ret (bool_decide (dyn = None))
  | _ => panic "reflect: call of reflect.Value.IsNil on a value that cannot be nil"
  end.

(** [reflect.Indirect(r)]: the record a pointer points to, the zero Value
    for a nil pointer, [r] itself when it is no pointer.  The record behind
    an error value has no field a binding path could name. *)
Definition rv_Indirect (r : RValue) : M RValue :=
  let* r := rv_current r in
  match r with
  | RV (VPtr _ None) _ => ret RInvalid
  | RV (VPtr _ (Some l)) _ =>
    fun w => match heap w !! l with
             | Some v => Ret (RV v (PHeap l)) w
             | None => Panic "invalid memory address or nil pointer dereference" w
             end
  | RV (VError _) _ => ret (RV (VStruct (TDefined "Error") []) PNone)
  | _ => ret r
  end.

(** [s.FieldByName(name)]: the zero Value when the struct has no such
    field, a panic when [s] is no struct.  [forEach] only looks fields up
    in records behind a pointer. *)
Definition rv_FieldByName (s : RValue) (name : string) : M RValue :=
  let* s := rv_current s in
  match s with
  | RV (VStruct _ fields) pl =>
    ret match lookup_field name fields with
        | None => RInvalid
        | Some v => RV v match pl with PHeap l => PField l name | _ => PNone end
        end
  | _ => panic "reflect: call of reflect.Value.FieldByName on non-struct Value"
  end.

(** A field is exported when its name starts with an upper-case letter
    (field names are taken to be ASCII). *)
Definition is_exported (name : string) : bool :=
  match name with
  | EmptyString => false
  | String a _ => (65 <=? nat_of_ascii a)%nat && (nat_of_ascii a <=? 90)%nat
  end.

Definition read_only (pl : Place) : bool :=
  match pl with
  | PField _ name => negb (is_exported name)
  | _ => false
  end.

(** [field.Interface()]: the value as an [interface{}], the content of an
    interface-typed field; a panic for an unexported field. *)
Definition rv_Interface (r : RValue) : M iface :=
  let* r := rv_current r in
  match r with
  | RInvalid => panic "reflect: call of reflect.Value.Interface on zero Value"
  | RV v pl =>
    if read_only pl
    then panic "reflect.Value.Interface: cannot return value obtained from unexported field or method"
    else run (match pl with
              | PField l name => modify (emit (EFieldRead l name))
              | _ => ret tt
              end) in
         ret match v with VIface dyn => dyn | _ => Some v end
  end.

(** The field a [Set...] call may write: addressable and exported. *)
Definition rv_CanSet (r : RValue) : option (loc * string) :=
  match r with
  | RV _ (PField l name) => if is_exported name then Some (l, name) else None
  | _ => None
  end.

Definition store_field (l : loc) (name : string) (v : value)
  (h : gmap loc value) : gmap loc value :=
  match h !! l with
  | Some (VStruct t fields) => <[l := VStruct t (update_field name v fields)]> h
  | _ => h
  end.

(** The write behind every [Set...] call. *)
Definition write_field (l : loc) (name : string) (v : value) : M unit :=
  modify (fun w => emit (EFieldWrite l name v) (set_heap (store_field l name v (heap w)) w)).

(** ** Numbers *)

(** [float64(v)] for an integer [v]: the nearest binary64 number, ties to
    even. *)
Definition float64_of_Z (n : Z) : spec_float :=
  binary_normalize 53 1024 n 0 false.

(** [float64(v)] for a [float32] [v], and [float32(v)] for a [float64]. *)
Definition float_round (prec emax : Z) (f : spec_float) : spec_float :=
  match f with
  | S754_finite s m e => binary_normalize prec emax (cond_Zopp s (Zpos m)) e s
  | _ => f
  end.

Definition float64_of_float32 : spec_float -> spec_float := float_round 53 1024.
Definition float32_of_float64 : spec_float -> spec_float := float_round 24 128.

(** The integer part of a finite number, rounding toward zero. *)
Definition float_trunc (f : spec_float) : option Z :=
  match f with
  | S754_zero _ => Some 0
  | S754_finite s m e => Some (cond_Zopp s (Z.shiftl (Zpos m) e))
  | _ => None
  end.

(** What Go leaves to the implementation: the width of [int], [uint] and
    [uintptr], and the result of converting to an integer a number that
    has no integer part or whose integer part does not fit. *)
Record Platform := MkPlatform {
  int_bits : Z;
  int64_of_unrepresentable : spec_float -> Z;
  uint64_of_unrepresentable : spec_float -> Z
}.

(** The amd64 port: 64-bit [int]; the conversions of an unrepresentable
    number give the pattern 0x8000000000000000. *)
Definition amd64 : Platform :=
  MkPlatform 64 (fun _ => - 2 ^ 63) (fun _ => 2 ^ 63).

(** [int64(f)] and [uint64(f)]. *)
Definition int64_of_float (pf : Platform) (f : spec_float) : Z :=
  match float_trunc f with
  | Some z =>
    if (- 2 ^ 63 <=? z) && (z <? 2 ^ 63) then z
    else int64_of_unrepresentable pf f
  | None => int64_of_unrepresentable pf f
  end.

Definition uint64_of_float (pf : Platform) (f : spec_float) : Z :=
  match float_trunc f with
  | Some z =>
    if (0 <=? z) && (z <? 2 ^ 64) then z
    else uint64_of_unrepresentable pf f
  | None => uint64_of_unrepresentable pf f
  end.

Definition int_signed (k : IntKind) : bool :=
  match k with
  | KInt | KInt8 | KInt16 | KInt32 | KInt64 => true
  | _ => false
  end.

Definition int_width (pf : Platform) (k : IntKind) : Z :=
  match k with
  | KInt | KUint | KUintptr => int_bits pf
  | KInt8 | KUint8 => 8
  | KInt16 | KUint16 => 16
  | KInt32 | KUint32 => 32
  | KInt64 | KUint64 => 64
  end.

(** Storing a 64-bit integer in a field of kind [k] keeps the low bits. *)
Definition wrap_int (pf : Platform) (k : IntKind) (z : Z) : Z :=
  let b := int_width pf k in
  if int_signed k then (z + 2 ^ (b - 1)) mod 2 ^ b - 2 ^ (b - 1)
  else z mod 2 ^ b.


(** ** Writing through reflection *)

Definition not_settable : string :=
  "reflect: reflect.Value.Set using unaddressable value or value obtained using unexported field".

(** [field.SetFloat(x)]. *)
Definition rv_SetFloat (field : RValue) (x : spec_float) : M unit :=
  let* field := rv_current field in
  match rv_CanSet field, field with
  | Some (l, name), RV (VFloat KFloat32 t _) _ =>
    write_field l name (VFloat KFloat32 t (float32_of_float64 x))
  | Some (l, name), RV (VFloat KFloat64 t _) _ =>
    write_field l name (VFloat KFloat64 t x)
  | Some _, _ => panic "reflect: call of reflect.Value.SetFloat on non-float Value"
  | None, _ => panic not_settable
  end.

(** [field.SetInt(x)] and [field.SetUint(x)]. *)
Definition rv_SetInt (pf : Platform) (field : RValue) (x : Z) : M unit :=
  let* field := rv_current field in
  match rv_CanSet field, field with
  | Some (l, name), RV (VInt k t _) _ =>
    if int_signed k then write_field l name (VInt k t (wrap_int pf k x))
    else panic "reflect: call of reflect.Value.SetInt on uint Value"
  | Some _, _ => panic "reflect: call of reflect.Value.SetInt on non-int Value"
  | None, _ => panic not_settable
  end.

Definition rv_SetUint (pf : Platform) (field : RValue) (x : Z) : M unit :=
  let* field := rv_current field in
  match rv_CanSet field, field with
  | Some (l, name), RV (VInt k t _) _ =>
    if int_signed k
    then panic "reflect: call of reflect.Value.SetUint on int Value"
    else write_field l name (VInt k t (wrap_int pf k x))
  | Some _, _ => panic "reflect: call of reflect.Value.SetUint on non-uint Value"
  | None, _ => panic not_settable
  end.

(** [field.Set(reflect.ValueOf(v))]: the value must be assignable to the
    field's type, which it is when the types are identical or the field is
    an [interface{}]. *)
Definition rv_Set (field : RValue) (v : value) : M unit :=
  let* field := rv_current field in
  match rv_CanSet field, field with
  | Some (l, name), RV (VIface _) _ => write_field l name (VIface (Some v))
  | Some (l, name), RV fv _ =>
    if decide (value_kind v = value_kind fv ∧ value_type v = value_type fv)
    then write_field l name v
    else panic "reflect.Set: value is not assignable to the field's type"
  | _, _ => panic not_settable
  end.

(** ** Traversal: [forEach], [Reset], [Submit] *)

(** Modelled from the spec: [newError], which is not among the source
    files, builds the [BindingError] with the given message. *)
Definition newError (msg : string) : error := BindingError msg.

(** [strings.Split(path, ".")]: never empty; the empty path gives one empty
    name. *)
Fixpoint split_dots (path : string) : list string :=
  match path with
  | EmptyString => [EmptyString]
  | String a rest =>
    if decide (a = "."%char) then EmptyString :: split_dots rest
    else match split_dots rest with
         | [] => [String a EmptyString]
         | name :: names => String a name :: names
         end
  end.

(** [prop.Source().(string)], the assertion without the comma: a panic on
    a source that is no string. *)
Definition prop_Source_string (p : Property) : M string :=
  fun w => match as_string (prop_source (props w p)) with
           | Some s => Ret s w
           | None => Panic "interface conversion: interface is not string" w
           end.

(** A [for ... range] loop whose body may return an error from the
    enclosing function. *)
Fixpoint for_range_err {A} (l : list A) (body : A -> M (option error))
  : M (option error) :=
  match l with
  | [] => ret None
  | x :: l' =>
    let* e := body x in
    match e with
    | Some err => ret (Some err)
    | None => for_range_err l' body
    end
  end.

(** The inner loop of [forEach] over the names that are left, with the
    loop's variables [p] and [s]. *)
Fixpoint walk_names (f : Property -> RValue -> M (option error))
  (prop : Property) (names : list string) (p s : RValue) : M (option error) :=
  match names with
  | [] => ret None
  | name :: rest =>
    let* field := rv_FieldByName s name in
    if negb (rv_IsValid field)
    then let* sname := rv_TypeName s in
         ret (Some (newError ("Struct '" ++ sname ++ "' has no field '" ++ name ++ "'.")))
    else
      let* step :=
        match rest with
        | [] =>
          let* e := f prop field in
          ret match e with Some err => inl err | None => inr p end
        | _ :: _ =>
          let* k := rv_Kind p in
          if decide (k = KPtr) then ret (inr field)
          else ret (inl (newError "Field must be a pointer to a struct."))
        end in
      match step with
      | inl err => ret (Some err)
      | inr p' =>
        let* isnil := rv_IsNil p' in
        if isnil then ret (Some (newError "Pointer must not be nil."))
        else
          let* s' := rv_Indirect p' in
          let* k := rv_Kind s' in
          if decide (k = KStruct) then walk_names f prop rest p' s'
          else ret (Some (newError "Pointer must point to a struct."))
      end
  end.

(** [db.forEach(f)]. *)
Definition forEach (f : Property -> RValue -> M (option error))
  : M (option error) :=
  let* w := get_world in
  let p := reflect_ValueOf (dataSource (db w)) in
  let* k := rv_Kind p in
  if decide (k = KPtr) then
    let* isnil := rv_IsNil p in
    if isnil then ret None
    else
      let* s := rv_Indirect p in
      let* ks := rv_Kind s in
      if decide (ks = KStruct) then
        for_range_err (properties (db w)) (fun prop =>
          let* path := prop_Source_string prop in
          walk_names f prop (split_dots path) p s)
      else ret (Some (newError "DataSource must be a pointer to a struct."))
  else ret (Some (newError "DataSource must be a pointer to a struct.")).

(** [prop.Get().(float64)]. *)
Definition as_float64 (i : iface) : option spec_float :=
  match i with
  | Some (VFloat KFloat64 TBasic f) => Some f
  | _ => None
  end.

(** The type switch of [Reset]: the cases are the predeclared numeric
    types, so a value of a defined type falls to [default]. *)
Definition to_float64 (i : iface) : option spec_float :=
  match i with
  | Some (VFloat KFloat32 TBasic f) => Some (float64_of_float32 f)
  | Some (VFloat KFloat64 TBasic f) => Some f
  | Some (VInt _ TBasic n) => Some (float64_of_Z n)
  | _ => None
  end.

Definition float64_value (f : spec_float) : iface :=
  Some (VFloat KFloat64 TBasic f).

(** How the function [Reset] hands to [forEach] ends: an error is
    returned; after a write that succeeded the property is validated for
    the widget the registry has for it. *)
Definition reset_validate (prop : Property) (e : option error)
  : M (option error) :=
  match e with
  | Some err => ret (Some err)
  | None =>
    let* w := get_world in
    run validateProperty prop (default None (property2Widget (db w) !! prop)) in
    ret None
  end.

(** The function [Reset] hands to [forEach]. *)
Definition reset_field (prop : Property) (field : RValue) : M (option error) :=
  let* cur := prop_Get prop in
  let* e :=
    match as_float64 cur with
    | Some _ =>
      let* fv := rv_Interface field in
      match to_float64 fv with
      | Some f64 => prop_Set prop (float64_value f64)
      | None =>
        let* src := prop_Source_string prop in
        let* tname := rv_TypeName field in
        ret (Some (newError ("Field '" ++ src ++ "': Can't convert " ++ tname ++ " to float64.")))
      end
    | None =>
      let* fv := rv_Interface field in
      prop_Set prop fv
    end in
  reset_validate prop e.

(** [db.Reset()]. *)
Definition Reset : M (option error) := forEach reset_field.

(** The function [Submit] hands to [forEach]. *)
Definition submit_field (pf : Platform) (prop : Property) (field : RValue)
  : M (option error) :=
  let* value := prop_Get prop in
  match value with
  | None => ret None
  | Some (VError err) => ret (Some err)
  | Some (VFloat KFloat64 TBasic f64) =>
    let* k := rv_Kind field in
    match k with
    | KFloat _ => run rv_SetFloat field f64 in ret None
    | KNum ik =>
      run (if int_signed ik then rv_SetInt pf field (int64_of_float pf f64)
           else rv_SetUint pf field (uint64_of_float pf f64)) in
      ret None
    | _ =>
      let* src := prop_Source_string prop in
      let* tname := rv_TypeName field in
      ret (Some (newError ("Field '" ++ src ++ "': Can't convert float64 to " ++ tname ++ ".")))
    end
  | Some v => run rv_Set field v in ret None
  end.

(** [db.Submit()]. *)
Definition Submit (pf : Platform) : M (option error) :=
  let* w := get_world in
  if negb (CanSubmit (db w)) then ret (Some ErrValidationFailed)
  else forEach (submit_field pf).

(** ** Sample worlds *)

(** A small application: a [Person] record with an [Address] behind a
    pointer, two widgets, and properties bound to the record's fields. *)
Module Sample.

Definition str (s : string) : value := VString TBasic s.

(** A property that stores what it is given and reports no change. *)
Definition plain_setter (_ v : iface) : SetOutcome := MkSetOutcome v None false.

Definition mkprop (v src : iface) (validator : option (iface -> option error))
  : PropertyObj :=
  MkPropertyObj v src validator plain_setter [].

(** A validator that accepts nothing, and one that accepts anything. *)
Definition reject : iface -> option error := fun _ => Some (OtherError "invalid").
Definition accept : iface -> option error := fun _ => None.

Definition person (age : Z) (address : option loc) : value :=
  VStruct (TDefined "Person")
    [("Name", str "Ann"); ("Age", VInt KInt64 TBasic age);
     ("Address", VPtr (TLit "*Address") address);
     ("Zip", VInt KInt TBasic 8010)].

Definition address : value :=
  VStruct (TDefined "Address") [("City", str "Graz")].

Definition the_heap (age : Z) : gmap loc value :=
  <[0%nat := person age None]> (<[1%nat := address]> ∅).

Definition person_ptr : iface := Some (VPtr (TLit "*Person") (Some 0%nat)).
Definition nil_person_ptr : iface := Some (VPtr (TLit "*Person") None).

(** Property 0 is bound to [Name], 1 (a number box holding a [float64])
    to [Age], 2 to [Address.City], 3 to [Zip.Code], 4 has the empty
    string as its source, 5 and 6 carry validators, 7 is a number box with
    a validator, every other property has no source. *)
Definition the_props (p : Property) : PropertyObj :=
  match p with
  | 0%nat => mkprop (Some (str "")) (Some (str "Name")) None
  | 1%nat => mkprop (float64_value (float64_of_Z 0)) (Some (str "Age")) None
  | 2%nat => mkprop None (Some (str "Address.City")) None
  | 3%nat => mkprop None (Some (str "Zip.Code")) None
  | 4%nat => mkprop None (Some (str "")) None
  | 5%nat => mkprop (Some (str "")) (Some (str "Name")) (Some reject)
  | 6%nat => mkprop (Some (str "")) (Some (str "Name")) (Some accept)
  | 7%nat => mkprop (float64_value (float64_of_Z 0)) (Some (str "Age")) (Some accept)
  | _ => mkprop None None None
  end.

Definition the_widgets (i : nat) : list (string * Property) :=
  match i with
  | 0%nat => [("Text", 0%nat); ("Value", 1%nat); ("Enabled", 9%nat)]
  | 1%nat => [("City", 2%nat)]
  | 2%nat => [("Zip", 3%nat)]
  | 3%nat => [("Blank", 4%nat)]
  | 4%nat => [("Strict", 5%nat)]
  | 5%nat => [("Lax", 6%nat)]
  | 6%nat => [("Value", 7%nat)]
  | _ => []
  end.

(** A fresh binder in front of a person of the given age. *)
Definition fresh (age : Z) : World :=
  MkWorld (the_heap age) the_props the_widgets NewDataBinder [].

(** The world after [setup]: data source set, widgets bound. *)
Definition bound (age : Z) (source : iface) (ws : list Widget) : World :=
  final_world ((run SetDataSource source in SetBoundWidgets ws) (fresh age)).

(** A session in which the one bound property fails validation: the
    ledger is not empty. *)
Definition invalid : World :=
  final_world (validateProperty 5%nat (Some 4%nat)
                 (bound 30 person_ptr [Some 4%nat])).

(** A binder whose data source is a nil [*Person]. *)
Definition without_person : World :=
  bound 30 nil_person_ptr [Some 0%nat; Some 1%nat].

(** A session whose one property is bound to [Zip.Code], a path through
    the integer field [Zip]. *)
Definition through_int : World := bound 30 person_ptr [Some 2%nat].

(** A session on a binder whose data source was never set. *)
Definition no_source : World := bound 30 None [Some 0%nat].

(** A session whose one property is bound to [Address.City], the person
    having no address. *)
Definition no_address : World := bound 30 person_ptr [Some 1%nat].

(** The second session of a binder: widget 0 was bound, then widget 1. *)
Definition rebound : World :=
  final_world (SetBoundWidgets [Some 1%nat] (bound 30 person_ptr [Some 0%nat])).

(** A fresh binder that already knows its data source. *)
Definition sourced : World :=
  final_world (SetDataSource person_ptr (fresh 30)).

(** A session on the widget whose property has the empty string as its
    source. *)
Definition blank : World := bound 30 person_ptr [Some 3%nat].

(** A session with a presenter, on the widget whose property's validator
    accepts anything. *)
Definition lax_presented : World :=
  final_world (SetErrorPresenter true (bound 30 person_ptr [Some 5%nat])).

(** The same for the widget whose property's validator accepts nothing. *)
Definition strict_presented : World :=
  final_world (SetErrorPresenter true (bound 30 person_ptr [Some 4%nat])).

(** The session of widget 0, whose property 1 holds a [float64] and is
    bound to the integer field [Age]; the field as [forEach] resolves it;
    the world after the property and the field were read. *)
Definition number_box (age : Z) : World := bound age person_ptr [Some 0%nat].



(** A session on the widget with the strict validator and the widget with
    the number box. *)
Definition validated : World := bound 30 person_ptr [Some 4%nat; Some 0%nat].


End Sample.

(** ** Vocabulary of the statements *)

(** What no call of the binder changes: the widgets, and the source, the
    validator and the setter of every property. *)
Definition same_objects (w w' : World) : Prop :=
  widgets w' = widgets w /\
  forall p, prop_source (props w' p) = prop_source (props w p)
         /\ prop_validator (props w' p) = prop_validator (props w p)
         /\ prop_setter (props w' p) = prop_setter (props w p).

(** The properties a widget declares, in the order its map is ranged
    over. *)
Definition widget_properties (w : World) (widget : Widget) : list Property :=
  match widget with
  | Some i => (widgets w i).*2
  | None => []
  end.

Definition has_string_source (w : World) (p : Property) : Prop :=
  is_Some (as_string (prop_source (props w p))).

(** The properties of the widgets [ws] whose source is a string. *)
Definition accepted (w : World) (ws : list Widget) : list Property :=
  filter (has_string_source w) (concat (map (widget_properties w) ws)).

(** How often the eligibility notification is in a trace. *)
Fixpoint publications (t : list Event) : nat :=
  match t with
  | [] => 0
  | EPublish :: t' => S (publications t')
  | _ :: t' => publications t'
  end.

(** Every stored handle leads to the handler of its property, attached for
    the widget the registry records. *)
Definition subscribed (w : World) : Prop :=
  forall p h, property2ChangedHandle (db w) !! p = Some h ->
    exists widget,
      prop_handlers (props w p) !! h = Some (Some (MkHandler p widget))
      /\ property2Widget (db w) !! p = Some widget.

(** Two worlds that differ in nothing but the handler lists of the
    properties. *)
Definition only_handlers (w w' : World) : Prop :=
  same_objects w w' /\ heap w' = heap w /\ trace w' = trace w /\ db w' = db w
  /\ forall p, prop_value (props w' p) = prop_value (props w p).

(** The ledger after a validation of [prop] for [widget] that gave
    [outcome], as the specification describes it: a failure is recorded
    under the widget; a success removes the property's entry, and the
    widget with it when no entry of the widget is left. *)
Definition ledger_after (widget : Widget) (prop : Property)
  (outcome : option error) (l : Ledger) : Ledger :=
  match outcome with
  | Some err => <[widget := <[prop := err]> (default ∅ (l !! widget))]> l
  | None =>
    match l !! widget with
    | None => l
    | Some m =>
      if decide (delete prop m = ∅) then delete widget l
      else <[widget := delete prop m]> l
    end
  end.

(** The error the ledger holds for a property of a widget. *)
Definition entry (w : World) (widget : Widget) (prop : Property) : option error :=
  ledger_of (db w) !! widget ≫= (.!! prop).

(** What a run of [validateProperty] adds to the trace after reading and
    validating the value: the presentation, when a presenter is registered
    and the run gets that far, and the publication, when eligibility
    changed. *)
Definition presentation (w : World) (widget : Widget) (outcome : option error)
  : list Event :=
  if errorPresenter (db w) then
    match outcome, ledger_of (db w) !! widget with
    | None, None => []
    | _, _ => [EPresent outcome widget]
    end
  else [].

Definition publication (before after : bool) : list Event :=
  if eqb before after then [] else [EPublish].

(** What the host can do with a binder and its properties, apart from
    beginning a session: the setters, [Reset], [Submit], one validation, a
    bound property announcing a change, a property being set. *)
Inductive BinderOp :=
| OpSetDataSource (i : iface)
| OpSetErrorPresenter (ep : bool)
| OpReset
| OpSubmit (pf : Platform)
| OpValidate (prop : Property) (widget : Widget)
| OpChanged (prop : Property)
| OpSet (prop : Property) (v : iface).

Definition run_op (op : BinderOp) : M unit :=
  match op with
  | OpSetDataSource i => SetDataSource i
  | OpSetErrorPresenter ep => SetErrorPresenter ep
  | OpReset => run Reset in ret tt
  | OpSubmit pf => run Submit pf in ret tt
  | OpValidate prop widget => validateProperty prop widget
  | OpChanged prop => publish_Changed prop
  | OpSet prop v => run prop_Set prop v in ret tt
  end.

(** A step that neither touches the ledger nor publishes. *)
Definition quiet (w w' : World) : Prop :=
  widget2Property2Error (db w') = widget2Property2Error (db w)
  /\ publications (trace w') = publications (trace w).

(** A world reached from another by runs of [validateProperty] and quiet
    steps. *)
Inductive validation_steps : World -> World -> Prop :=
| steps_done w : validation_steps w w
| steps_quiet w w1 w' :
    quiet w w1 -> validation_steps w1 w' -> validation_steps w w'
| steps_validate prop widget w w' :
    validation_steps (final_world (validateProperty prop widget w)) w' ->
    validation_steps w w'.

(** A call all of whose effects on the ledger and on the notification are
    those of the validations it runs. *)
Definition by_validation {A} (m : M A) : Prop :=
  forall w, validation_steps w (final_world (m w)).

(** A call every run of which, whether it returns or panics, relates the
    world it starts in to the world it ends in by [R]. *)
Definition respects (R : World -> World -> Prop) {A} (m : M A) : Prop :=
  forall w, R w (final_world (m w)).

(** The trace only grows. *)
Definition extends (w w' : World) : Prop :=
  exists t, trace w' = (trace w ++ t)%list.

(** Whether an event is a call of a property's [Set]. *)
Definition is_set (e : Event) : bool :=
  match e with
  | ESet _ _ => true
  | _ => false
  end.

(** The widget [Reset] validates a property for:
    [db.property2Widget[prop]], the nil [Widget] when the registry has no
    entry. *)
Definition owner (w : World) (p : Property) : Widget :=
  default None (property2Widget (db w) !! p).

(** The ledger reflects the value of the property [p]: it holds for [p],
    under [p]'s widget, just what [p]'s validator says of the value [p]
    has. *)
Definition consistent (w : World) (p : Property) : Prop :=
  forall validate, prop_validator (props w p) = Some validate ->
    entry w (owner w p) p = validate (prop_value (props w p)).

(** What [Reset] leaves alone: the data source and its records, the
    collaborators' fixed parts, and the registry. *)
Definition reset_frame (w w' : World) : Prop :=
  heap w' = heap w /\ same_objects w w'
  /\ dataSource (db w') = dataSource (db w)
  /\ properties (db w') = properties (db w)
  /\ property2Widget (db w') = property2Widget (db w).

(** A step of [Reset] that does not undo the consistency of [q]. *)
Definition keeps (q : Property) (w w' : World) : Prop :=
  reset_frame w w' /\ (consistent w q -> consistent w' q).

(** The events of a world that an earlier world did not have yet. *)
Definition new_events (w0 w : World) : list Event :=
  drop (length (trace w0)) (trace w).

(** A step that calls [Set] on no property but [p]. *)
Definition sets_only (p : Property) (w w' : World) : Prop :=
  exists t, trace w' = (trace w ++ t)%list
            /\ forall q v, In (ESet q v) t -> q = p.

(** Two worlds that differ in nothing but the ledger and the trace. *)
Definition ledger_only (w w' : World) : Prop :=
  heap w' = heap w /\ props w' = props w /\ widgets w' = widgets w
  /\ set_ledger None (db w') = set_ledger None (db w).

(** A call that only reads the heap: it changes nothing, and in worlds
    with the same heap it gives the same result or the same panic. *)
Definition heap_read {A} (m : M A) : Prop :=
  forall h, exists out : A + string,
    forall w, heap w = h ->
      m w = match out with inl a => Ret a w | inr msg => Panic msg w end.

(** What [walk_names] does with the result of the function it called for
    the last name: an error is returned, otherwise [tail] runs. *)
Definition after_field (tail : M (option error)) (e : option error)
  : M (option error) :=
  match e with
  | Some err => ret (Some err)
  | None => tail
  end.

(** Over the heap [h] the names lead to [field]: whatever function is
    handed to [walk_names], in a world with that heap the walk comes to
    calling it on [field], and ends with [tail]. *)
Definition reached (h : gmap loc value) (prop : Property) (names : list string)
  (p s field : RValue) (tail : M (option error)) : Prop :=
  forall f w, heap w = h ->
    walk_names f prop names p s w = bind (f prop field) (after_field tail) w.

(** The checks [walk_names] makes after the last name. *)
Definition last_checks (p : RValue) : M (option error) :=
  let* isnil := rv_IsNil p in
  if isnil then ret (Some (newError "Pointer must not be nil."))
  else
    let* s' := rv_Indirect p in
    let* k := rv_Kind s' in
    if decide (k = KStruct) then ret None
    else ret (Some (newError "Pointer must point to a struct.")).

(** One turn of the loop of [forEach], for the data source [root] and the
    record [s] it points to. *)
Definition turn (f : Property -> RValue -> M (option error)) (root s : RValue)
  (prop : Property) : M (option error) :=
  let* path := prop_Source_string prop in
  walk_names f prop (split_dots path) root s.











(** ** Vocabulary of the further properties *)

(** No widget is recorded in the ledger with an empty set of errors. *)
Definition ledger_wf (w : World) : Prop :=
  forall widget, ledger_of (db w) !! widget <> Some ∅.

(** Everything the host can do with a binder: begin a session, or one of
    the other operations. *)
Inductive HostOp :=
| HBind (ws : list Widget)
| HOp (op : BinderOp).

Definition run_host (op : HostOp) : M unit :=
  match op with
  | HBind ws => SetBoundWidgets ws
  | HOp op => run_op op
  end.

(** The ledger is the one of the earlier world, or the empty one a new
    session starts with. *)
Definition ledger_kept_or_fresh (w w' : World) : Prop :=
  widget2Property2Error (db w') = widget2Property2Error (db w)
  \/ widget2Property2Error (db w') = Some ∅.

(** The world in which the property [p] has been given the value [v]
    behind the binder's back. *)
Definition edited (p : Property) (v : iface) (w : World) : World :=
  update_prop p (with_value v) w.

(** The registrations [SetBoundWidgets] makes for the widgets [ws]: the
    properties with a string source, each with the widget that declares
    it, in the order the loops meet them. *)
Definition widget_registrations (w : World) (widget : Widget)
  : list (Property * Widget) :=
  map (fun p => (p, widget)) (filter (has_string_source w) (widget_properties w widget)).

(** All registrations of a session, widget after widget. *)
Definition registrations (w : World) (ws : list Widget)
  : list (Property * Widget) :=
  concat (map (widget_registrations w) ws).

(** The registrations of the property [p]. *)
Definition registrations_of (w : World) (ws : list Widget) (p : Property)
  : list (Property * Widget) :=
  filter (fun r => r.1 = p) (registrations w ws).

(** The handler list of [p] once the handle the binder has for it is
    detached. *)
Definition detached (w : World) (p : Property) : list (option Handler) :=
  match property2ChangedHandle (db w) !! p with
  | Some h => <[h := None]> (prop_handlers (props w p))
  | None => prop_handlers (props w p)
  end.

(** The handlers the registrations [regs] attach to [p]. *)
Definition handlers_for (p : Property) (regs : list (Property * Widget))
  : list (option Handler) :=
  map (fun r => Some (MkHandler p r.2)) (filter (fun r => r.1 = p) regs).

(** [db.property2Widget] after the registrations: a later one replaces an
    earlier one of the same property. *)
Definition register_all (regs : list (Property * Widget))
  (m : gmap Property Widget) : gmap Property Widget :=
  foldl (fun m r => <[r.1 := r.2]> m) m regs.

(** What the second part of [SetBoundWidgets] does, for the registrations
    [regs]: handlers are attached and the registry is extended; nothing is
    read, set or validated. *)
Definition registered (regs : list (Property * Widget)) (w w' : World) : Prop :=
  same_objects w w' /\ heap w' = heap w /\ trace w' = trace w
  /\ (forall p, prop_value (props w' p) = prop_value (props w p))
  /\ dataSource (db w') = dataSource (db w)
  /\ boundWidgets (db w') = boundWidgets (db w)
  /\ widget2Property2Error (db w') = widget2Property2Error (db w)
  /\ errorPresenter (db w') = errorPresenter (db w)
  /\ property2Widget (db w') = register_all regs (property2Widget (db w))
  /\ forall p, prop_handlers (props w' p)
               = (prop_handlers (props w p) ++ handlers_for p regs)%list.

(** The trace grew, by events that all pass [P]. *)
Definition adds (P : Event -> bool) (w w' : World) : Prop :=
  exists t, trace w' = (trace w ++ t)%list /\ forallb P t = true.

(** The events [Submit] may cause: a property is read, a field is
    written. *)
Definition submit_event (e : Event) : bool :=
  match e with
  | EGet _ | EFieldWrite _ _ _ => true
  | _ => false
  end.

(** The events [Reset] may cause: every one but a write to a field. *)
Definition reset_event (e : Event) : bool :=
  match e with
  | EFieldWrite _ _ _ => false
  | _ => true
  end.

(** What [Submit] leaves alone: the properties, the widgets and the
    binder, with its ledger. *)
Definition submit_frame (w w' : World) : Prop :=
  props w' = props w /\ widgets w' = widgets w /\ db w' = db w.

(** The properties whose [Set] was called, and the properties whose [Get]
    was called, in the order of the calls. *)
Definition set_target (e : Event) : option Property :=
  match e with
  | ESet p _ => Some p
  | _ => None
  end.

Definition get_target (e : Event) : option Property :=
  match e with
  | EGet p => Some p
  | _ => None
  end.

Definition set_targets (t : list Event) : list Property := omap set_target t.
Definition get_targets (t : list Event) : list Property := omap get_target t.

(** Whether an event is a write to a field; whether it is no call of
    [Set]. *)
Definition is_write (e : Event) : bool :=
  match e with
  | EFieldWrite _ _ _ => true
  | _ => false
  end.

Definition no_set (e : Event) : bool := negb (is_set e).

(** What one turn of a traversal did for its property, [tg] telling which
    events count: it came to the property once, or it did not come to it
    and did not end well. *)
Definition visited (tg : Event -> option Property) (prop : Property)
  (w : World) (o : Outcome (option error)) : Prop :=
  exists t, trace (final_world o) = (trace w ++ t)%list
    /\ (omap tg t = [prop]
        \/ (omap tg t = [] /\ forall w', o <> Ret None w')).

(** What a traversal of the properties [l] did: it came to the properties
    of a front part of [l], once each and in order, and to all of [l] when
    it ended well. *)
Definition visited_in_order (tg : Event -> option Property) (l : list Property)
  (w : World) (o : Outcome (option error)) : Prop :=
  exists t, trace (final_world o) = (trace w ++ t)%list
    /\ omap tg t `prefix_of` l
    /\ forall w', o = Ret None w' -> omap tg t = l.

(** The trace grew by events none of which counts for [tg]. *)
Definition unseen (tg : Event -> option Property) (w w' : World) : Prop :=
  exists t, trace w' = (trace w ++ t)%list /\ omap tg t = [].

(** A value that is a nil pointer, a nil interface, or a nil slice, map,
    channel or function. *)
Definition nil_value (v : value) : bool :=
  match v with
  | VPtr _ None | VIface None | VRef _ _ true => true
  | _ => false
  end.

(** The kinds [reflect.Value.IsNil] is defined on. *)
Definition can_be_nil (v : value) : bool :=
  match value_kind v with
  | KPtr | KInterface | KRef _ => true
  | _ => false
  end.

(** The error of the checks [forEach] makes of the data source. *)
Definition root_error : error :=
  newError "DataSource must be a pointer to a struct.".



(** The field a binding path leads to over the heap [h], from the record
    at [l] with the fields [fields]: through pointers to records, to the
    field the last name names. *)
Fixpoint resolve (h : gmap loc value) (names : list string) (l : loc)
  (fields : list (string * value)) : option (loc * string * value) :=
  match names with
  | [] => None
  | name :: rest =>
    match lookup_field name fields with
    | None => None
    | Some fv =>
      match rest with
      | [] => Some (l, name, fv)
      | _ :: _ =>
        match fv with
        | VPtr _ (Some l') =>
          match h !! l' with
          | Some (VStruct _ fields') => resolve h rest l' fields'
          | _ => None
          end
        | _ => None
        end
      end
    end
  end.

(** The names joined by dots. *)
Fixpoint join_dots (names : list string) : string :=
  match names with
  | [] => ""
  | [name] => name
  | name :: rest => name ++ "." ++ join_dots rest
  end.

(** Whether a name has a dot in it. *)
Fixpoint has_dot (s : string) : bool :=
  match s with
  | EmptyString => false
  | String a rest => if decide (a = "."%char) then true else has_dot rest
  end.


(** The kinds [Submit] stores a [float64] in. *)
Definition is_number_kind (k : Kind) : bool :=
  match k with
  | KNum _ | KFloat _ => true
  | _ => false
  end.

(** ** A second sample: a form with a required field *)

Module Form.

(** A validator that requires a text that is not empty. *)
Definition required (v : iface) : option error :=
  match v with
  | Some (VString _ EmptyString) => Some (OtherError "required")
  | _ => None
  end.

Definition form_props (p : Property) : PropertyObj :=
  match p with
  | 0%nat => Sample.mkprop (Some (Sample.str "")) (Some (Sample.str "Name"))
               (Some required)
  | _ => Sample.mkprop None None None
  end.

Definition form_widgets (i : nat) : list (string * Property) :=
  match i with
  | 0%nat => [("Text", 0%nat)]
  | _ => []
  end.

(** A session on the one widget, in front of a person. *)
Definition session : World :=
  final_world ((run SetDataSource Sample.person_ptr in SetBoundWidgets [Some 0%nat])
                 (MkWorld (Sample.the_heap 30) form_props form_widgets NewDataBinder [])).

(** The fields of the person, and the number 2.75. *)
Definition person_fields : list (string * value) :=
  match Sample.person 30 None with
  | VStruct _ fields => fields
  | _ => []
  end.

Definition two_and_three_quarters : spec_float :=
  binary_normalize 53 1024 11 (-2) false.

(** A binder whose data source is a number. *)
Definition number_source : World :=
  final_world (SetDataSource (Some (VInt KInt TBasic 5)) (Sample.fresh 30)).


Definition failed_box : World :=
  update_prop 0%nat (with_value (Some (VError (OtherError "no text"))))
    (Sample.number_box 30).

Definition number_in_text_box : World :=
  update_prop 0%nat (with_value (float64_value two_and_three_quarters))
    (Sample.number_box 30).




End Form.

(** * Verification *)

(** ** The monad *)

Lemma bind_Ret {A B} (m : M A) (k : A -> M B) w a w' :
  m w = Ret a w' -> bind m k w = k a w'.
Proof. unfold bind. now intros ->. Qed.

Lemma bind_inv_Ret {A B} (m : M A) (k : A -> M B) w b w' :
  bind m k w = Ret b w' -> exists a w1, m w = Ret a w1 /\ k a w1 = Ret b w'.
Proof.
  unfold bind. destruct (m w) as [a w1|msg w1]; [eauto|discriminate].
Qed.

(** Unfolds the monad's operations. *)
Ltac munfold := unfold bind, ret, panic, modify, get_world in *.

(** ** Submit: the validation gate *)

Lemma Submit_unfold (pf : Platform) (w : World) :
  Submit pf w =
  if CanSubmit (db w) then forEach (submit_field pf) w
  else Ret (Some ErrValidationFailed) w.
Proof.
  unfold Submit, bind, get_world, ret. now destruct (CanSubmit (db w)).
Qed.

(** C2.  When the ledger is not empty, [Submit] returns the sentinel
    [errValidationFailed], which is no [BindingError], and leaves the whole
    world as it was: no field is written, no property is read, no path is
    walked. *)
Theorem Submit_refuses_outstanding_errors (pf : Platform) (w : World) :
  CanSubmit (db w) = false ->
  Submit pf w = Ret (Some ErrValidationFailed) w
  /\ (forall msg, ErrValidationFailed <> BindingError msg)
  /\ heap (final_world (Submit pf w)) = heap w.
Proof.
  intros Hno. rewrite Submit_unfold, Hno.
  repeat split; intros; discriminate.
Qed.

(** ** A nil data source *)

(** C10.  When the data source is a typed nil pointer, [Reset] returns
    success, and so does [Submit] when the ledger is empty; neither visits
    a property or touches the world. *)
Theorem nil_pointer_source_succeeds (pf : Platform) (w : World) (t : GoType) :
  dataSource (db w) = Some (VPtr t None) ->
  Reset w = Ret None w
  /\ Submit pf w =
     Ret (if CanSubmit (db w) then None else Some ErrValidationFailed) w.
Proof.
  intros Hsrc.
  assert (Hfe : forall f, forEach f w = Ret None w).
  { intros f. unfold forEach. munfold. rewrite Hsrc. cbn. reflexivity. }
  split; [apply Hfe|].
  rewrite Submit_unfold. destruct (CanSubmit (db w)); [apply Hfe|reflexivity].
Qed.

Lemma Submit_refuses_outstanding_errors_witness :
  Submit amd64 Sample.invalid = Ret (Some ErrValidationFailed) Sample.invalid
  /\ (forall msg, ErrValidationFailed <> BindingError msg)
  /\ heap (final_world (Submit amd64 Sample.invalid)) = heap Sample.invalid.
Proof.
  apply (Submit_refuses_outstanding_errors amd64 Sample.invalid).
  vm_compute. reflexivity.
Defined.

Lemma nil_pointer_source_succeeds_witness :
  Reset Sample.without_person = Ret None Sample.without_person
  /\ Submit amd64 Sample.without_person = Ret None Sample.without_person.
Proof.
  apply (nil_pointer_source_succeeds amd64 Sample.without_person (TLit "*Person")).
  vm_compute. reflexivity.
Defined.

(** ** Malformed shapes *)

(** C6.  Two malformed shapes make the traversal panic instead of
    returning a [BindingError].  A path through a field that cannot be nil
    (here the integer [Zip] of the path [Zip.Code]) panics in [p.IsNil()],
    because [forEach] tests the kind of the pointer it came from and not
    the kind of the field; a data source that is the nil interface panics
    in [p.Type()]. *)
Theorem forEach_panics_on_malformed_shapes :
  Reset Sample.through_int =
    Panic "reflect: call of reflect.Value.IsNil on a value that cannot be nil"
      Sample.through_int
  /\ Submit amd64 Sample.through_int =
    Panic "reflect: call of reflect.Value.IsNil on a value that cannot be nil"
      Sample.through_int
  /\ Reset Sample.no_source =
    Panic "reflect: call of reflect.Value.Type on zero Value" Sample.no_source.
Proof. repeat split; vm_compute; reflexivity. Qed.

(** The path [Address.City] over a person without an address: the error
    is returned before any field is read or any property is touched. *)
Lemma nil_address_is_a_BindingError :
  Reset Sample.no_address =
    Ret (Some (BindingError "Pointer must not be nil.")) Sample.no_address
  /\ Submit amd64 Sample.no_address =
    Ret (Some (BindingError "Pointer must not be nil.")) Sample.no_address.
Proof. split; vm_compute; reflexivity. Qed.

(** ** Sessions *)

(** C5.  A second [SetBoundWidgets] detaches the handlers of the first
    session and rebuilds the three maps, but [db.properties] is only
    appended to: the properties 0 and 1 of the first session are still in
    it, and [Reset] still writes to them. *)
Theorem SetBoundWidgets_keeps_old_properties :
  properties (db Sample.rebound) = [0%nat; 1%nat; 2%nat]
  /\ map_to_list (property2Widget (db Sample.rebound)) = [(2%nat, Some 1%nat)]
  /\ prop_handlers (props Sample.rebound 0%nat) = [None]
  /\ prop_handlers (props Sample.rebound 1%nat) = [None]
  /\ In (ESet 0%nat (Some (Sample.str "Ann")))
        (trace (final_world (Reset Sample.rebound))).
Proof. repeat split; vm_compute; auto. Qed.

(** ** What stays the same *)

Lemma same_objects_refl w : same_objects w w.
Proof. split; [reflexivity|]. intros p. repeat split. Qed.

Lemma same_objects_trans w1 w2 w3 :
  same_objects w1 w2 -> same_objects w2 w3 -> same_objects w1 w3.
Proof.
  intros [Hw1 Hp1] [Hw2 Hp2]. split; [congruence|].
  intros p. destruct (Hp1 p) as (?&?&?), (Hp2 p) as (?&?&?).
  repeat split; congruence.
Qed.

Lemma update_prop_lookup p f w q :
  props (update_prop p f w) q = if decide (p = q) then f (props w p) else props w q.
Proof.
  unfold update_prop. cbn. destruct (decide (p = q)) as [->|Hne].
  - apply fn_lookup_insert.
  - now apply fn_lookup_insert_ne.
Qed.

Lemma update_prop_same_objects p f w :
  (forall o, prop_source (f o) = prop_source o
          /\ prop_validator (f o) = prop_validator o
          /\ prop_setter (f o) = prop_setter o) ->
  same_objects w (update_prop p f w).
Proof.
  intros Hf. split; [reflexivity|]. intros q.
  rewrite update_prop_lookup. destruct (decide (p = q)) as [->|]; [apply Hf|].
  repeat split.
Qed.

Lemma with_handlers_same_objects p hs w :
  same_objects w (update_prop p (with_handlers hs) w).
Proof. apply update_prop_same_objects. intros o. repeat split. Qed.

Lemma with_value_same_objects p v w :
  same_objects w (update_prop p (with_value v) w).
Proof. apply update_prop_same_objects. intros o. repeat split. Qed.

Lemma has_string_source_same w w' p :
  same_objects w w' -> has_string_source w' p <-> has_string_source w p.
Proof.
  intros [_ Hp]. unfold has_string_source. destruct (Hp p) as (-> & _). tauto.
Qed.

(** ** Registration *)

Lemma bind_property_run widget prop w :
  exists w',
    bind_property widget prop w = Ret tt w'
    /\ same_objects w w' /\ heap w' = heap w /\ trace w' = trace w
    /\ properties (db w') =
       (properties (db w) ++ if decide (has_string_source w prop) then [prop] else [])%list.
Proof.
  unfold bind_property, has_string_source. munfold.
  destruct (as_string (prop_source (props w prop))) as [s|] eqn:Hs.
  - eexists. split; [reflexivity|]. cbn.
    split; [apply with_handlers_same_objects|]. repeat split.
  - eexists. split; [reflexivity|].
    split; [apply same_objects_refl|]. repeat split.
    cbn. now rewrite app_nil_r.
Qed.

Lemma filter_has_string_source_same w w' (l : list Property) :
  same_objects w w' ->
  filter (has_string_source w') l = filter (has_string_source w) l.
Proof.
  intros Hs. induction l as [|p l IH]; [reflexivity|].
  rewrite !filter_cons, IH.
  pose proof (has_string_source_same _ _ p Hs) as Hp.
  destruct (decide (has_string_source w' p)), (decide (has_string_source w p));
    try reflexivity; tauto.
Qed.

Lemma bind_property_subscribes widget prop w w' :
  bind_property widget prop w = Ret tt w' ->
  (subscribed w -> subscribed w')
  /\ forall q, is_Some (property2ChangedHandle (db w') !! q) <->
       is_Some (property2ChangedHandle (db w) !! q)
       \/ (q = prop /\ has_string_source w prop).
Proof.
  unfold bind_property, has_string_source. munfold.
  destruct (as_string (prop_source (props w prop))) as [s|] eqn:Hs;
    intros [= <-].
  - split.
    + intros Hsub p h. cbn. rewrite update_prop_lookup.
      destruct (decide (prop = p)) as [->|Hne].
      * rewrite !lookup_insert_eq. intros [= <-]. exists widget. cbn.
        split; [|reflexivity].
        rewrite lookup_app_r by lia. now rewrite Nat.sub_diag.
      * rewrite !lookup_insert_ne by done. apply Hsub.
    + intros q. cbn. destruct (decide (prop = q)) as [->|Hne].
      * rewrite lookup_insert_eq. split; [intros _; right; eauto|eauto].
      * rewrite lookup_insert_ne by done. split; [tauto|].
        intros [?|[-> _]]; [done|congruence].
  - split; [tauto|]. intros q. split; [tauto|].
    intros [?|[_ [? ?]]]; [done|discriminate].
Qed.

Lemma for_range_final {A} (R : World -> World -> Prop) (body : A -> M unit) l :
  (forall w, R w w) ->
  (forall w1 w2 w3, R w1 w2 -> R w2 w3 -> R w1 w3) ->
  (forall x w, R w (final_world (body x w))) ->
  forall w, R w (final_world (for_range l body w)).
Proof.
  intros Hrefl Htrans Hstep. induction l as [|x l IH]; intros w; cbn.
  - apply Hrefl.
  - unfold bind. specialize (Hstep x w).
    destruct (body x w) as [[] w1|msg w1]; cbn in *; [|exact Hstep].
    exact (Htrans _ _ _ Hstep (IH w1)).
Qed.

Lemma only_handlers_refl w : only_handlers w w.
Proof. repeat split. Qed.

Lemma only_handlers_trans w1 w2 w3 :
  only_handlers w1 w2 -> only_handlers w2 w3 -> only_handlers w1 w3.
Proof.
  intros (Ho1 & Hh1 & Ht1 & Hd1 & Hv1) (Ho2 & Hh2 & Ht2 & Hd2 & Hv2).
  split; [eapply same_objects_trans; eauto|].
  repeat split; intros; congruence.
Qed.

Lemma event_Detach_only_handlers p h w :
  only_handlers w (final_world (event_Detach p h w)).
Proof.
  unfold event_Detach. destruct (decide _); cbn; [|apply only_handlers_refl].
  split; [apply with_handlers_same_objects|]. repeat split.
  intros q. rewrite update_prop_lookup. now destruct (decide (p = q)) as [->|].
Qed.

Lemma detach_all_only_handlers w :
  only_handlers w (final_world (detach_all w)).
Proof.
  unfold detach_all. munfold.
  apply (for_range_final only_handlers).
  - apply only_handlers_refl.
  - apply only_handlers_trans.
  - intros [p h] w1. apply event_Detach_only_handlers.
Qed.

Lemma bind_properties_run widget (ps : list (string * Property)) w :
  exists w',
    for_range ps (fun np => bind_property widget np.2) w = Ret tt w'
    /\ same_objects w w' /\ heap w' = heap w /\ trace w' = trace w
    /\ properties (db w') =
       (properties (db w) ++ filter (has_string_source w) ps.*2)%list
    /\ (subscribed w -> subscribed w')
    /\ forall q, is_Some (property2ChangedHandle (db w') !! q) <->
         is_Some (property2ChangedHandle (db w) !! q)
         \/ q ∈ filter (has_string_source w) ps.*2.
Proof.
  revert w. induction ps as [|[n p] ps IH]; intros w.
  - exists w. cbn. rewrite app_nil_r. repeat split; try tauto.
    intros [?|Hin]; [done|]. now apply elem_of_nil in Hin.
  - destruct (bind_property_run widget p w) as (w1 & Hrun & Hso & Hh & Ht & Hp).
    destruct (bind_property_subscribes _ _ _ _ Hrun) as [Hsub Hdom].
    destruct (IH w1) as (w2 & Hrun2 & Hso2 & Hh2 & Ht2 & Hp2 & Hsub2 & Hdom2).
    exists w2. cbn [for_range]. rewrite (bind_Ret _ _ _ _ _ Hrun).
    split; [exact Hrun2|]. split; [eapply same_objects_trans; eauto|].
    split; [congruence|]. split; [congruence|].
    rewrite fmap_cons, filter_cons. cbn [snd].
    split; [|split; [tauto|]].
    + rewrite Hp2, Hp, (filter_has_string_source_same _ _ _ Hso).
      destruct (decide (has_string_source w p)); now rewrite <- app_assoc.
    + intros q. rewrite Hdom2, Hdom, (filter_has_string_source_same _ _ _ Hso).
      destruct (decide (has_string_source w p)) as [Hy|Hn].
      * rewrite elem_of_cons. tauto.
      * split; [|tauto]. intros [[?|[-> ?]]|?]; tauto.
Qed.

Lemma accepted_same w w' ws :
  same_objects w w' -> accepted w' ws = accepted w ws.
Proof.
  intros Hso. unfold accepted.
  rewrite (filter_has_string_source_same _ _ _ Hso). do 2 f_equal.
  apply map_ext. intros [i|]; [|reflexivity]. cbn. destruct Hso as [Hw _].
  now rewrite Hw.
Qed.

Lemma bind_widgets_run ws w w' :
  for_range ws bind_widget w = Ret tt w' ->
  same_objects w w' /\ heap w' = heap w /\ trace w' = trace w
  /\ properties (db w') = (properties (db w) ++ accepted w ws)%list
  /\ (subscribed w -> subscribed w')
  /\ forall q, is_Some (property2ChangedHandle (db w') !! q) <->
       is_Some (property2ChangedHandle (db w) !! q) \/ q ∈ accepted w ws.
Proof.
  revert w. induction ws as [|widget ws IH]; intros w; cbn [for_range].
  - intros [= <-]. unfold accepted. cbn. rewrite app_nil_r.
    repeat split; try tauto. intros [?|Hin]; [done|]. now apply elem_of_nil in Hin.
  - intros Hrun. apply bind_inv_Ret in Hrun as ([] & w1 & Hw & Hrest).
    unfold bind_widget in Hw. apply bind_inv_Ret in Hw as (n2p & w0 & Hn & Hps).
    unfold name2Property in Hn. destruct widget as [i|]; [|discriminate].
    injection Hn as <- <-.
    destruct (bind_properties_run (Some i) (widgets w i) w)
      as (w1' & Hrun1 & Hso & Hh & Ht & Hp & Hsub & Hdom).
    rewrite Hps in Hrun1. injection Hrun1 as <-.
    destruct (IH _ Hrest) as (Hso2 & Hh2 & Ht2 & Hp2 & Hsub2 & Hdom2).
    assert (Hacc : accepted w (Some i :: ws) =
                   (filter (has_string_source w) (widgets w i).*2 ++ accepted w1 ws)%list).
    { rewrite (accepted_same _ _ _ Hso). unfold accepted.
      cbn [map concat widget_properties]. now rewrite filter_app. }
    split; [eapply same_objects_trans; eauto|].
    split; [congruence|]. split; [congruence|].
    split; [|split; [tauto|]].
    + rewrite Hp2, Hp, Hacc. now rewrite <- app_assoc.
    + intros q. rewrite Hdom2, Hdom, Hacc, elem_of_app. tauto.
Qed.

Lemma as_string_Some i s :
  as_string i = Some s <-> i = Some (VString TBasic s).
Proof.
  split; [|now intros ->].
  destruct i as [[? | | | [] ? | | | | |]|]; cbn; try discriminate.
  now intros [= ->].
Qed.

Lemma SetBoundWidgets_inv ws w w' :
  SetBoundWidgets ws w = Ret tt w' ->
  exists w1,
    only_handlers w w1
    /\ for_range ws bind_widget (set_db (set_session ws (db w1)) w1) = Ret tt w'.
Proof.
  unfold SetBoundWidgets. intros Hrun.
  apply bind_inv_Ret in Hrun as ([] & w1 & Hdet & Hrun).
  apply bind_inv_Ret in Hrun as ([] & w2 & Hmod & Hrun).
  injection Hmod as <-. exists w1. split; [|exact Hrun].
  pose proof (detach_all_only_handlers w) as Hoh. now rewrite Hdet in Hoh.
Qed.

(** C7 (as amended).  [SetBoundWidgets] appends to [db.properties] the
    properties of the given widgets whose [Source()] is a string, empty or
    not, in the order it meets them, and subscribes to exactly those. *)
Theorem SetBoundWidgets_registers_string_sources ws w w' :
  SetBoundWidgets ws w = Ret tt w' ->
  properties (db w') = (properties (db w) ++ accepted w ws)%list
  /\ (forall p, p ∈ accepted w ws ->
        exists s, prop_source (props w' p) = Some (VString TBasic s))
  /\ (forall p, is_Some (property2ChangedHandle (db w') !! p) <-> p ∈ accepted w ws)
  /\ subscribed w'.
Proof.
  intros Hrun. apply SetBoundWidgets_inv in Hrun as (w1 & Hoh & Hrun).
  destruct Hoh as (Hso1 & _ & _ & Hdb & _).
  set (w2 := set_db (set_session ws (db w1)) w1) in *.
  assert (Hso2 : same_objects w w2) by exact Hso1.
  destruct (bind_widgets_run _ _ _ Hrun) as (Hso & _ & _ & Hp & Hsub & Hdom).
  rewrite (accepted_same _ _ _ Hso2) in Hp, Hdom.
  split; [rewrite Hp; cbn; now rewrite Hdb|].
  split; [|split].
  - intros p Hin. apply list_elem_of_filter in Hin as [[s Hs] _].
    exists s. apply as_string_Some.
    destruct (same_objects_trans _ _ _ Hso2 Hso) as [_ Hps].
    destruct (Hps p) as (-> & _). exact Hs.
  - intros p. rewrite Hdom. cbn. rewrite lookup_empty. split; [|tauto].
    intros [[? ?]|?]; [discriminate|done].
  - apply Hsub. intros p h. cbn. now rewrite lookup_empty.
Qed.

Lemma SetBoundWidgets_registers_string_sources_witness :
  let ws := [Some 0%nat; Some 3%nat] in
  let w' := final_world (SetBoundWidgets ws Sample.sourced) in
  properties (db w') = (properties (db Sample.sourced) ++ accepted Sample.sourced ws)%list
  /\ (forall p, p ∈ accepted Sample.sourced ws ->
        exists s, prop_source (props w' p) = Some (VString TBasic s))
  /\ (forall p, is_Some (property2ChangedHandle (db w') !! p) <->
                p ∈ accepted Sample.sourced ws)
  /\ subscribed w'.
Proof.
  apply (SetBoundWidgets_registers_string_sources
           [Some 0%nat; Some 3%nat] Sample.sourced).
  vm_compute. reflexivity.
Defined.

(** C7 (as stated) fails: a property whose source is the empty string is
    registered. *)
Lemma empty_source_is_registered :
  ~ (forall p, p ∈ properties (db Sample.blank) ->
       exists s, prop_source (props Sample.blank p) = Some (VString TBasic s)
                 /\ s <> "").
Proof.
  intros H. destruct (H 4%nat) as (s & Hs & Hne).
  - change (properties (db Sample.blank)) with [4%nat]. apply elem_of_cons. now left.
  - apply Hne. vm_compute in Hs. now injection Hs as <-.
Qed.

(** ** One validation *)

Lemma ledger_empty_Some l d :
  widget2Property2Error d = Some l ->
  ledger_empty d = bool_decide (l = ∅).
Proof.
  intros Hl. unfold ledger_empty, ledger_of. rewrite Hl. cbn.
  apply bool_decide_ext. apply map_size_empty_iff.
Qed.

Lemma set_ledger_id l d :
  widget2Property2Error d = l -> set_ledger l d = d.
Proof. intros <-. now destruct d. Qed.

Lemma validateProperty_no_validator prop widget w :
  prop_validator (props w prop) = None ->
  validateProperty prop widget w = Ret tt w.
Proof. unfold validateProperty. munfold. now intros ->. Qed.

(** One run of [validateProperty] on a binder whose maps were made. *)
Lemma validateProperty_run prop widget w validate l :
  prop_validator (props w prop) = Some validate ->
  widget2Property2Error (db w) = Some l ->
  let v := prop_value (props w prop) in
  let l' := ledger_after widget prop (validate v) l in
  exists w',
    validateProperty prop widget w = Ret tt w'
    /\ db w' = set_ledger (Some l') (db w)
    /\ heap w' = heap w /\ props w' = props w /\ widgets w' = widgets w
    /\ trace w' =
       (trace w ++ [EGet prop; EValidate prop v] ++ presentation w widget (validate v)
          ++ publication (ledger_empty (db w)) (bool_decide (l' = ∅)))%list.
Proof.
  intros Hval Hl v l'. subst l'. unfold validateProperty. munfold. rewrite Hval.
  unfold prop_Get. cbn. fold v.
  unfold ledger_after, presentation, ledger_of. rewrite Hl. cbn.
  destruct (validate v) as [err|] eqn:Hv.
  - unfold ledger_store, present_and_publish. munfold. cbn. rewrite Hl. cbn.
    rewrite (bool_decide_eq_false_2 _ (insert_non_empty _ _ _)).
    destruct (errorPresenter (db w)), (ledger_empty (db w)); cbn;
      eexists; (split; [reflexivity|]); cbn; rewrite <- ?app_assoc; repeat split.
  - destruct (l !! widget) as [m|] eqn:Hm; cbn.
    + unfold ledger_store, ledger_delete, present_and_publish. munfold. cbn.
      rewrite Hl. cbn.
      destruct (decide (size (delete prop m) = 0%nat)) as [Hz|Hnz].
      * apply map_size_empty_iff in Hz. rewrite Hz.
        destruct (decide _) as [_|Hne]; [|done]. cbn.
        rewrite delete_insert_eq.
        erewrite (ledger_empty_Some (delete widget l)) by reflexivity.
        assert (Hb : ledger_empty (db w) = false).
        { rewrite (ledger_empty_Some l) by done. apply bool_decide_eq_false.
          intros ->. now rewrite lookup_empty in Hm. }
        rewrite Hb.
        destruct (errorPresenter (db w)), (bool_decide (delete widget l = ∅)); cbn;
          eexists; (split; [reflexivity|]); cbn; rewrite <- ?app_assoc; repeat split.
      * destruct (decide (delete prop m = ∅)) as [He|_].
        { exfalso. apply Hnz. rewrite He. apply map_size_empty. }
        rewrite (bool_decide_eq_false_2 _ (insert_non_empty _ _ _)).
        assert (Hb : ledger_empty (db w) = false).
        { rewrite (ledger_empty_Some l) by done. apply bool_decide_eq_false.
          intros ->. now rewrite lookup_empty in Hm. }
        rewrite Hb. cbn.
        destruct (errorPresenter (db w)); cbn;
          eexists; (split; [reflexivity|]); cbn; rewrite <- ?app_assoc; repeat split.
    + rewrite <- (ledger_empty_Some l (db w)) by done.
      exists (emit (EValidate prop v) (emit (EGet prop) w)).
      split; [reflexivity|]. cbn. 
      assert (Hpub : publication (ledger_empty (db w)) (ledger_empty (db w)) = []).
      { unfold publication. now rewrite eqb_reflx. }
      rewrite Hpub, (set_ledger_id _ _ Hl).
      destruct (errorPresenter (db w)); cbn; rewrite <- ?app_assoc; repeat split.
Qed.

(** ** The eligibility notification *)

Lemma publications_app t1 t2 :
  publications (t1 ++ t2) = (publications t1 + publications t2)%nat.
Proof.
  induction t1 as [|e t1 IH]; [reflexivity|].
  destruct e; cbn; rewrite IH; reflexivity.
Qed.

Lemma quiet_refl w : quiet w w.
Proof. split; reflexivity. Qed.

Lemma quiet_emit e w : e <> EPublish -> quiet w (emit e w).
Proof.
  intros He. split; [reflexivity|]. cbn. rewrite publications_app.
  destruct e; cbn; try lia. congruence.
Qed.

Lemma steps_trans w1 w2 w3 :
  validation_steps w1 w2 -> validation_steps w2 w3 -> validation_steps w1 w3.
Proof.
  induction 1; intros H23; [exact H23| |].
  - eapply steps_quiet; eauto.
  - eapply steps_validate; eauto.
Qed.

Lemma steps_of_quiet w w' : quiet w w' -> validation_steps w w'.
Proof. intros Hq. eapply steps_quiet; [exact Hq|apply steps_done]. Qed.

Lemma by_validation_ret {A} (a : A) : by_validation (ret a).
Proof. intros w. apply steps_done. Qed.

Lemma by_validation_panic {A} msg : by_validation (@panic A msg).
Proof. intros w. apply steps_done. Qed.

Lemma by_validation_bind {A B} (m : M A) (k : A -> M B) :
  by_validation m -> (forall a, by_validation (k a)) -> by_validation (bind m k).
Proof.
  intros Hm Hk w. unfold bind. specialize (Hm w).
  destruct (m w) as [a w1|msg w1]; cbn in *; [|exact Hm].
  eapply steps_trans; [exact Hm|apply Hk].
Qed.

Lemma by_validation_quiet {A} (m : M A) :
  (forall w, quiet w (final_world (m w))) -> by_validation m.
Proof. intros Hq w. apply steps_of_quiet, Hq. Qed.

Lemma by_validation_validate prop widget :
  by_validation (validateProperty prop widget).
Proof. intros w. eapply steps_validate. apply steps_done. Qed.

Lemma by_validation_for_range {A} (l : list A) body :
  (forall x, by_validation (body x)) -> by_validation (for_range l body).
Proof.
  intros Hb. induction l as [|x l IH]; cbn [for_range].
  - apply by_validation_ret.
  - apply by_validation_bind; [apply Hb|]. intros _. exact IH.
Qed.

Lemma by_validation_for_range_err {A} (l : list A) body :
  (forall x, by_validation (body x)) -> by_validation (for_range_err l body).
Proof.
  intros Hb. induction l as [|x l IH]; cbn [for_range_err].
  - apply by_validation_ret.
  - apply by_validation_bind; [apply Hb|]. intros [e|]; [apply by_validation_ret|exact IH].
Qed.

Create HintDb validation.

#[local] Hint Resolve by_validation_ret by_validation_panic
  by_validation_validate : validation.

(** Solves the goal that a call built from the monad's operations acts by
    validation, from the lemmas of the hint database for the calls it is
    built from. *)
Ltac by_validation :=
  repeat first
    [ solve [auto with validation]
    | apply by_validation_bind; [|intros ?]
    | apply by_validation_for_range; intros ?
    | apply by_validation_for_range_err; intros ?
    | match goal with
      | |- by_validation (match ?x with _ => _ end) => destruct x
      | |- by_validation (let (_, _) := ?x in _) => destruct x
      end ].

Lemma by_validation_get_world : by_validation get_world.
Proof. apply by_validation_quiet. intros w. apply quiet_refl. Qed.

Lemma by_validation_emit e : e <> EPublish -> by_validation (modify (emit e)).
Proof. intros He. apply by_validation_quiet. intros w. now apply quiet_emit. Qed.

Lemma by_validation_prop_Get p : by_validation (prop_Get p).
Proof. apply by_validation_quiet. intros w. now apply quiet_emit. Qed.

Lemma by_validation_publish_Changed p : by_validation (publish_Changed p).
Proof.
  unfold publish_Changed. apply by_validation_bind; [apply by_validation_get_world|].
  intros w. apply by_validation_for_range. intros [h|]; by_validation.
Qed.

Lemma by_validation_prop_Set p v : by_validation (prop_Set p v).
Proof.
  unfold prop_Set.
  apply by_validation_bind; [apply by_validation_get_world|]. intros w.
  apply by_validation_bind; [now apply by_validation_emit|]. intros _.
  apply by_validation_bind.
  { apply by_validation_quiet. intros w1. split; reflexivity. }
  intros _. apply by_validation_bind; [|intros _; apply by_validation_ret].
  destruct (set_changed _); [apply by_validation_publish_Changed|apply by_validation_ret].
Qed.

#[local] Hint Resolve by_validation_get_world by_validation_prop_Get
  by_validation_publish_Changed by_validation_prop_Set : validation.

Lemma by_validation_rv_current r : by_validation (rv_current r).
Proof. apply by_validation_quiet. intros w. destruct r; apply quiet_refl. Qed.
#[local] Hint Resolve by_validation_rv_current : validation.

Lemma by_validation_rv_Kind r : by_validation (rv_Kind r).
Proof. unfold rv_Kind. by_validation. Qed.

Lemma by_validation_rv_TypeName r : by_validation (rv_TypeName r).
Proof. unfold rv_TypeName. by_validation. Qed.

Lemma by_validation_rv_IsNil r : by_validation (rv_IsNil r).
Proof. unfold rv_IsNil. by_validation. Qed.

Lemma by_validation_rv_Indirect r : by_validation (rv_Indirect r).
Proof.
  unfold rv_Indirect. by_validation.
  apply by_validation_quiet. intros w. destruct (heap w !! _); apply quiet_refl.
Qed.

Lemma by_validation_rv_FieldByName s name : by_validation (rv_FieldByName s name).
Proof. unfold rv_FieldByName. by_validation. Qed.

Lemma by_validation_rv_Interface r : by_validation (rv_Interface r).
Proof.
  unfold rv_Interface. by_validation.
  apply by_validation_emit. discriminate.
Qed.

Lemma by_validation_write_field l name v : by_validation (write_field l name v).
Proof.
  apply by_validation_quiet. intros w. split; [reflexivity|]. cbn.
  rewrite publications_app. cbn. lia.
Qed.
#[local] Hint Resolve by_validation_rv_Kind by_validation_rv_TypeName
  by_validation_rv_IsNil by_validation_rv_Indirect by_validation_rv_FieldByName
  by_validation_rv_Interface by_validation_write_field : validation.

Lemma by_validation_rv_SetFloat r x : by_validation (rv_SetFloat r x).
Proof. unfold rv_SetFloat. by_validation. Qed.

Lemma by_validation_rv_SetInt pf r x : by_validation (rv_SetInt pf r x).
Proof. unfold rv_SetInt. by_validation. Qed.

Lemma by_validation_rv_SetUint pf r x : by_validation (rv_SetUint pf r x).
Proof. unfold rv_SetUint. by_validation. Qed.

Lemma by_validation_rv_Set r v : by_validation (rv_Set r v).
Proof. unfold rv_Set. by_validation. Qed.

Lemma by_validation_prop_Source_string p : by_validation (prop_Source_string p).
Proof.
  apply by_validation_quiet. intros w. unfold prop_Source_string.
  destruct (as_string _); apply quiet_refl.
Qed.
#[local] Hint Resolve by_validation_rv_SetFloat by_validation_rv_SetInt
  by_validation_rv_SetUint by_validation_rv_Set
  by_validation_prop_Source_string : validation.

Lemma by_validation_walk_names f prop names p s :
  (forall field, by_validation (f prop field)) ->
  by_validation (walk_names f prop names p s).
Proof.
  intros Hf. revert p s. induction names as [|name rest IH]; intros p s;
    cbn [walk_names]; [by_validation|].
  apply by_validation_bind; [by_validation|]. intros field.
  destruct (negb (rv_IsValid field)); [by_validation|].
  apply by_validation_bind.
  { destruct rest; by_validation. }
  intros [err|p']; [by_validation|].
  apply by_validation_bind; [by_validation|]. intros [|]; [by_validation|].
  apply by_validation_bind; [by_validation|]. intros s'.
  apply by_validation_bind; [by_validation|]. intros k.
  destruct (decide (k = KStruct)); [apply IH|by_validation].
Qed.

Lemma by_validation_forEach f :
  (forall prop field, by_validation (f prop field)) -> by_validation (forEach f).
Proof.
  intros Hf. unfold forEach. by_validation.
  apply by_validation_walk_names. apply Hf.
Qed.

Lemma by_validation_reset_field prop field : by_validation (reset_field prop field).
Proof. unfold reset_field, reset_validate. by_validation. Qed.

Lemma by_validation_submit_field pf prop field :
  by_validation (submit_field pf prop field).
Proof. unfold submit_field. by_validation. Qed.

Lemma by_validation_Reset : by_validation Reset.
Proof. apply by_validation_forEach, by_validation_reset_field. Qed.

Lemma by_validation_Submit pf : by_validation (Submit pf).
Proof.
  unfold Submit. apply by_validation_bind; [by_validation|]. intros w.
  destruct (negb _); [by_validation|].
  apply by_validation_forEach, by_validation_submit_field.
Qed.

Lemma by_validation_run_op op : by_validation (run_op op).
Proof.
  destruct op; cbn [run_op].
  - apply by_validation_quiet. intros w. split; reflexivity.
  - apply by_validation_quiet. intros w. split; reflexivity.
  - apply by_validation_bind; [apply by_validation_Reset|by_validation].
  - apply by_validation_bind; [apply by_validation_Submit|by_validation].
  - by_validation.
  - by_validation.
  - by_validation.
Qed.

Lemma ledger_empty_after l d :
  ledger_empty (set_ledger (Some l) d) = bool_decide (l = ∅).
Proof. now apply ledger_empty_Some. Qed.





(** ** The error presenter *)

(** C4 (as amended).  On a binder whose maps were made and that has a
    presenter, a run of [validateProperty] for a property with a validator
    reads and validates the value and then calls the presenter with the
    outcome and the widget, whether or not eligibility changes -- except
    when the validation passes and the ledger has nothing for the widget:
    then it returns without calling the presenter. *)
Theorem validateProperty_presents prop widget w validate l :
  prop_validator (props w prop) = Some validate ->
  widget2Property2Error (db w) = Some l ->
  errorPresenter (db w) = true ->
  let v := prop_value (props w prop) in
  let w' := final_world (validateProperty prop widget w) in
  trace w' =
  (trace w ++ [EGet prop; EValidate prop v]
     ++ match validate v, l !! widget with
        | None, None => []
        | outcome, _ => [EPresent outcome widget]
        end
     ++ publication (ledger_empty (db w)) (ledger_empty (db w')))%list.
Proof.
  intros Hval Hl Hep v w'. subst w'.
  destruct (validateProperty_run prop widget w validate l Hval Hl)
    as (w' & -> & Hdb & _ & _ & _ & Ht).
  cbn [final_world]. rewrite Ht, Hdb, ledger_empty_after.
  unfold presentation, ledger_of. rewrite Hep, Hl. cbn. fold v.
  destruct (validate v), (l !! widget); reflexivity.
Qed.

Lemma validateProperty_presents_witness :
  let w := Sample.strict_presented in
  let w' := final_world (validateProperty 5%nat (Some 4%nat) w) in
  trace w' =
  (trace w ++ [EGet 5%nat; EValidate 5%nat (prop_value (props w 5%nat))]
     ++ [EPresent (Some (OtherError "invalid")) (Some 4%nat)]
     ++ publication (ledger_empty (db w)) (ledger_empty (db w')))%list.
Proof.
  apply (validateProperty_presents 5%nat (Some 4%nat) Sample.strict_presented
           Sample.reject ∅); vm_compute; reflexivity.
Defined.

(** C4 (as stated) fails: with a presenter registered, a validation that
    passes for a widget without ledger entries does not call it. *)
Lemma passing_validation_is_not_presented :
  let w := Sample.lax_presented in
  prop_validator (props w 6%nat) = Some Sample.accept
  /\ errorPresenter (db w) = true
  /\ forall err widget,
       ~ In (EPresent err widget)
            (trace (final_world (validateProperty 6%nat (Some 5%nat) w))).
Proof.
  split; [reflexivity|]. split; [reflexivity|].
  intros err widget. vm_compute. intros [H|[H|[]]]; discriminate.
Qed.

(** ** Relations every run respects *)

Section RespectsBasics.
Variable R : World -> World -> Prop.
Hypothesis R_refl : forall w, R w w.
Hypothesis R_trans : forall w1 w2 w3, R w1 w2 -> R w2 w3 -> R w1 w3.

Lemma respects_ret {A} (a : A) : respects R (ret a).
Proof. intros w. apply R_refl. Qed.

Lemma respects_panic {A} msg : respects R (@panic A msg).
Proof. intros w. apply R_refl. Qed.

Lemma respects_get_world : respects R get_world.
Proof. intros w. apply R_refl. Qed.

Lemma respects_bind {A B} (m : M A) (k : A -> M B) :
  respects R m -> (forall a, respects R (k a)) -> respects R (bind m k).
Proof.
  intros Hm Hk w. unfold bind. specialize (Hm w).
  destruct (m w) as [a w1|msg w1]; cbn in *; [|exact Hm].
  exact (R_trans _ _ _ Hm (Hk a w1)).
Qed.

Lemma respects_for_range {A} (l : list A) body :
  (forall x, respects R (body x)) -> respects R (for_range l body).
Proof.
  intros Hb. induction l as [|x l IH]; cbn [for_range].
  - apply respects_ret.
  - apply respects_bind; [apply Hb|]. intros _. exact IH.
Qed.

Lemma respects_for_range_err {A} (l : list A) body :
  (forall x, respects R (body x)) -> respects R (for_range_err l body).
Proof.
  intros Hb. induction l as [|x l IH]; cbn [for_range_err].
  - apply respects_ret.
  - apply respects_bind; [apply Hb|]. intros [e|]; [apply respects_ret|exact IH].
Qed.
End RespectsBasics.

(** Splits the goal that a call respects a relation along the monad's
    operations; the lemmas for the calls it is built from are taken from
    the context. *)
Ltac respects :=
  repeat first
    [ solve [auto]
    | apply respects_ret; [solve [auto]]
    | apply respects_panic; [solve [auto]]
    | apply respects_get_world; [solve [auto]]
    | apply respects_bind; [solve [auto]| |intros ?]
    | apply respects_for_range; [solve [auto]|solve [auto]|intros ?]
    | apply respects_for_range_err; [solve [auto]|solve [auto]|intros ?]
    | match goal with
      | |- respects _ (match ?x with _ => _ end) => destruct x
      | |- respects _ (let (_, _) := ?x in _) => destruct x
      end ].

(** A relation that every event but a [Set] and every change of the
    ledger respects is respected by [validateProperty]. *)
Section RespectsValidation.
Variable R : World -> World -> Prop.
Hypothesis R_refl : forall w, R w w.
Hypothesis R_trans : forall w1 w2 w3, R w1 w2 -> R w2 w3 -> R w1 w3.
Hypothesis R_emit : forall e w, is_set e = false -> R w (emit e w).
Hypothesis R_ledger : forall l w, R w (set_db (set_ledger l (db w)) w).

Lemma respects_ledger_store widget m : respects R (ledger_store widget m).
Proof.
  intros w. unfold ledger_store.
  destruct (widget2Property2Error (db w)); [apply R_ledger|apply R_refl].
Qed.

Lemma respects_ledger_delete widget : respects R (ledger_delete widget).
Proof.
  intros w. unfold ledger_delete, modify. cbn.
  destruct (widget2Property2Error (db w)); [apply R_ledger|apply R_refl].
Qed.

Lemma respects_present_and_publish err widget changed :
  respects R (present_and_publish err widget changed).
Proof.
  unfold present_and_publish. respects; intros w; now apply R_emit.
Qed.

Lemma respects_validateProperty prop widget :
  respects R (validateProperty prop widget).
Proof.
  pose proof respects_ledger_store. pose proof respects_ledger_delete.
  pose proof respects_present_and_publish.
  assert (forall p, respects R (prop_Get p)) by (intros p w; now apply R_emit).
  assert (forall p v, respects R (modify (emit (EValidate p v))))
    by (intros p v w; now apply R_emit).
  unfold validateProperty. respects.
Qed.
End RespectsValidation.

(** A relation that the validations, the events but [Set], and the writes
    to the properties in [can_set] respect is respected by the traversal
    that [Reset] makes; when writes to the heap respect it too, by the one
    [Submit] makes. *)
Section Respects.
Variable R : World -> World -> Prop.
Variable can_set : Property -> Prop.
Hypothesis R_refl : forall w, R w w.
Hypothesis R_trans : forall w1 w2 w3, R w1 w2 -> R w2 w3 -> R w1 w3.
Hypothesis R_emit : forall e w, is_set e = false -> R w (emit e w).
Hypothesis R_validate :
  forall prop widget, respects R (validateProperty prop widget).
Hypothesis R_set : forall p v x w,
  can_set p -> R w (update_prop p (with_value x) (emit (ESet p v) w)).

Lemma respects_prop_Get p : respects R (prop_Get p).
Proof. intros w. now apply R_emit. Qed.

Lemma respects_publish_Changed p : respects R (publish_Changed p).
Proof. unfold publish_Changed. respects. Qed.

Lemma respects_prop_Set p v : can_set p -> respects R (prop_Set p v).
Proof.
  intros Hp w. unfold prop_Set. unfold bind at 1, get_world.
  unfold bind at 1, modify at 1. unfold bind at 1, modify at 1.
  set (w1 := update_prop _ _ _).
  assert (Hw1 : R w w1) by now apply R_set.
  set (rest := bind _ _).
  assert (Hrest : respects R rest).
  { pose proof respects_publish_Changed. subst rest. respects. }
  exact (R_trans _ _ _ Hw1 (Hrest w1)).
Qed.

Lemma respects_rv_current r : respects R (rv_current r).
Proof. intros w. destruct r; apply R_refl. Qed.

Lemma respects_rv_Kind r : respects R (rv_Kind r).
Proof. pose proof respects_rv_current. unfold rv_Kind. respects. Qed.

Lemma respects_rv_TypeName r : respects R (rv_TypeName r).
Proof. pose proof respects_rv_current. unfold rv_TypeName. respects. Qed.

Lemma respects_rv_IsNil r : respects R (rv_IsNil r).
Proof. pose proof respects_rv_current. unfold rv_IsNil. respects. Qed.

Lemma respects_rv_Indirect r : respects R (rv_Indirect r).
Proof.
  pose proof respects_rv_current. unfold rv_Indirect. respects.
  intros w. destruct (heap w !! _); apply R_refl.
Qed.

Lemma respects_rv_FieldByName s name : respects R (rv_FieldByName s name).
Proof. pose proof respects_rv_current. unfold rv_FieldByName. respects. Qed.

Lemma respects_rv_Interface r : respects R (rv_Interface r).
Proof.
  pose proof respects_rv_current. unfold rv_Interface. respects;
    intros w; now apply R_emit.
Qed.

Lemma respects_prop_Source_string p : respects R (prop_Source_string p).
Proof.
  intros w. unfold prop_Source_string. destruct (as_string _); apply R_refl.
Qed.

Lemma respects_walk_names f prop names p s :
  (forall field, respects R (f prop field)) ->
  respects R (walk_names f prop names p s).
Proof.
  pose proof respects_rv_FieldByName. pose proof respects_rv_TypeName.
  pose proof respects_rv_Kind. pose proof respects_rv_IsNil.
  pose proof respects_rv_Indirect.
  intros Hf. revert p s. induction names as [|name rest IH]; intros p s;
    cbn [walk_names]; [respects|].
  apply respects_bind; [auto|respects|]. intros field.
  destruct (negb (rv_IsValid field)); [respects|].
  apply respects_bind; [auto|destruct rest; respects|].
  intros [err|p']; [respects|].
  apply respects_bind; [auto|respects|]. intros [|]; [respects|].
  apply respects_bind; [auto|respects|]. intros s'.
  apply respects_bind; [auto|respects|]. intros k.
  destruct (decide (k = KStruct)); [apply IH|respects].
Qed.

Lemma respects_forEach f :
  (forall prop field, respects R (f prop field)) -> respects R (forEach f).
Proof.
  pose proof respects_rv_Kind. pose proof respects_rv_IsNil.
  pose proof respects_rv_Indirect. pose proof respects_prop_Source_string.
  intros Hf. unfold forEach. respects. apply respects_walk_names, Hf.
Qed.

Lemma respects_reset_validate prop e : respects R (reset_validate prop e).
Proof. unfold reset_validate. respects. Qed.

Lemma respects_reset_field prop field :
  can_set prop -> respects R (reset_field prop field).
Proof.
  intros Hp.
  pose proof respects_prop_Get. pose proof respects_rv_Interface.
  pose proof (fun v => respects_prop_Set prop v Hp).
  pose proof respects_prop_Source_string.
  pose proof respects_rv_TypeName. pose proof respects_reset_validate.
  unfold reset_field. respects.
Qed.

Lemma respects_Reset : (forall p, can_set p) -> respects R Reset.
Proof.
  intros Hall. apply respects_forEach. intros prop field.
  now apply respects_reset_field.
Qed.

(** A write to the data source. *)
Hypothesis R_heap : forall h w, R w (set_heap h w).

Lemma respects_write_field l name v : respects R (write_field l name v).
Proof.
  intros w. unfold write_field, modify. cbn [final_world].
  exact (R_trans _ _ _ (R_heap _ w) (R_emit (EFieldWrite l name v) _ eq_refl)).
Qed.

Lemma respects_rv_SetFloat r x : respects R (rv_SetFloat r x).
Proof.
  pose proof respects_rv_current. pose proof respects_write_field.
  unfold rv_SetFloat. respects.
Qed.

Lemma respects_rv_SetInt pf r x : respects R (rv_SetInt pf r x).
Proof.
  pose proof respects_rv_current. pose proof respects_write_field.
  unfold rv_SetInt. respects.
Qed.

Lemma respects_rv_SetUint pf r x : respects R (rv_SetUint pf r x).
Proof.
  pose proof respects_rv_current. pose proof respects_write_field.
  unfold rv_SetUint. respects.
Qed.

Lemma respects_rv_Set r v : respects R (rv_Set r v).
Proof.
  pose proof respects_rv_current. pose proof respects_write_field.
  unfold rv_Set. respects.
Qed.

Lemma respects_submit_field pf prop field :
  respects R (submit_field pf prop field).
Proof.
  pose proof respects_prop_Get. pose proof respects_rv_Kind.
  pose proof respects_rv_SetFloat. pose proof respects_rv_SetInt.
  pose proof respects_rv_SetUint. pose proof respects_rv_Set.
  pose proof respects_prop_Source_string. pose proof respects_rv_TypeName.
  unfold submit_field. respects.
Qed.

Lemma respects_Submit pf : respects R (Submit pf).
Proof.
  unfold Submit. apply respects_bind; [auto|respects|]. intros w.
  destruct (negb _); [respects|].
  apply respects_forEach, respects_submit_field.
Qed.
End Respects.

(** *** The trace only grows *)





Lemma extends_set p v x w :
  extends w (update_prop p (with_value x) (emit (ESet p v) w)).
Proof. now exists [ESet p v]. Qed.




(** ** Reset: numbers *)







(** ** Reset: the ledger afterwards *)

Lemma entry_ledger_after (widget : Widget) (prop : Property) (outcome : option error)
  (l : Ledger) (wd : Widget) (p : Property) :
  (ledger_after widget prop outcome l !! wd) ≫= (.!! p) =
  if decide (wd = widget /\ p = prop) then outcome else (l !! wd) ≫= (.!! p).
Proof.
  unfold ledger_after. destruct outcome as [err|].
  - destruct (decide (wd = widget)) as [->|Hw].
    + rewrite lookup_insert_eq. cbn.
      destruct (decide (p = prop)) as [->|Hp].
      * rewrite lookup_insert_eq. now rewrite decide_True.
      * rewrite lookup_insert_ne by done. rewrite decide_False by tauto.
        destruct (l !! widget); [reflexivity|apply lookup_empty].
    + rewrite lookup_insert_ne by done. now rewrite decide_False by tauto.
  - destruct (l !! widget) as [m|] eqn:Hm.
    + destruct (decide (delete prop m = ∅)) as [He|Hne].
      * destruct (decide (wd = widget)) as [->|Hw].
        -- rewrite lookup_delete_eq. cbn. rewrite Hm. cbn.
           destruct (decide (p = prop)) as [->|Hp].
           ++ now rewrite decide_True.
           ++ rewrite decide_False by tauto.
              rewrite <- (lookup_delete_ne m prop p) by done.
              now rewrite He, lookup_empty.
        -- rewrite lookup_delete_ne by done. now rewrite decide_False by tauto.
      * destruct (decide (wd = widget)) as [->|Hw].
        -- rewrite lookup_insert_eq, Hm. cbn.
           destruct (decide (p = prop)) as [->|Hp].
           ++ rewrite lookup_delete_eq. now rewrite decide_True.
           ++ rewrite lookup_delete_ne by done. now rewrite decide_False by tauto.
        -- rewrite lookup_insert_ne by done. now rewrite decide_False by tauto.
    + destruct (decide (wd = widget /\ p = prop)) as [[-> ->]|]; [|reflexivity].
      now rewrite Hm.
Qed.

Lemma ledger_only_refl w : ledger_only w w.
Proof. repeat split. Qed.

Lemma ledger_only_trans w1 w2 w3 :
  ledger_only w1 w2 -> ledger_only w2 w3 -> ledger_only w1 w3.
Proof. intros (?&?&?&?) (?&?&?&?). repeat split; congruence. Qed.

Lemma validateProperty_ledger_only prop widget :
  respects ledger_only (validateProperty prop widget).
Proof.
  apply respects_validateProperty.
  - apply ledger_only_refl.
  - apply ledger_only_trans.
  - intros e w _. repeat split.
  - intros l w. repeat split.
Qed.

Lemma ledger_only_db w w' :
  ledger_only w w' ->
  dataSource (db w') = dataSource (db w)
  /\ properties (db w') = properties (db w)
  /\ property2Widget (db w') = property2Widget (db w)
  /\ errorPresenter (db w') = errorPresenter (db w).
Proof.
  intros (_ & _ & _ & Hdb). destruct (db w), (db w'). cbn in Hdb.
  injection Hdb as -> -> -> -> -> ->. repeat split.
Qed.

Lemma ledger_only_reset_frame w w' : ledger_only w w' -> reset_frame w w'.
Proof.
  intros Hlo. destruct (ledger_only_db _ _ Hlo) as (Hd & Hp & Hpw & _).
  destruct Hlo as (Hh & Hps & Hws & _).
  split; [exact Hh|]. split; [|repeat split; assumption].
  split; [exact Hws|]. intros p. rewrite Hps. repeat split.
Qed.

Lemma entry_unfold w wd p :
  entry w wd p = (ledger_of (db w) !! wd) ≫= (.!! p).
Proof. reflexivity. Qed.

(** What one validation does to the entries of the ledger. *)
Lemma validateProperty_entry prop widget w wd p :
  let w' := final_world (validateProperty prop widget w) in
  entry w' wd p = entry w wd p
  \/ (wd = widget /\ p = prop /\
      exists validate l,
        prop_validator (props w prop) = Some validate
        /\ widget2Property2Error (db w) = Some l
        /\ entry w' wd p = validate (prop_value (props w prop))).
Proof.
  cbn zeta.
  destruct (prop_validator (props w prop)) as [validate|] eqn:Hval.
  - destruct (widget2Property2Error (db w)) as [l|] eqn:Hl.
    + destruct (validateProperty_run prop widget w validate l Hval Hl)
        as (w' & -> & Hdb & _ & _ & _ & _). cbn [final_world].
      rewrite !entry_unfold. unfold ledger_of. rewrite Hdb, Hl. cbn.
      rewrite entry_ledger_after.
      destruct (decide _) as [[-> ->]|]; [right|left; reflexivity].
      repeat split. eauto.
    + left. assert (Hlo : ledger_of (db w) = ∅) by (unfold ledger_of; now rewrite Hl).
      unfold validateProperty. munfold. rewrite Hval. unfold prop_Get. cbn.
      rewrite !Hlo, !lookup_empty.
      destruct (validate _); cbn; [|reflexivity].
      unfold ledger_store. cbn. rewrite Hl. reflexivity.
  - left. now rewrite (validateProperty_no_validator _ _ _ Hval).
Qed.

Lemma validateProperty_establishes prop widget w w' validate :
  validateProperty prop widget w = Ret tt w' ->
  prop_validator (props w prop) = Some validate ->
  entry w' widget prop = validate (prop_value (props w prop)).
Proof.
  intros Hrun Hval.
  destruct (widget2Property2Error (db w)) as [l|] eqn:Hl.
  - destruct (validateProperty_run prop widget w validate l Hval Hl)
      as (w1 & Hrun1 & Hdb & _ & _ & _ & _).
    rewrite Hrun in Hrun1. injection Hrun1 as <-.
    rewrite entry_unfold. unfold ledger_of. rewrite Hdb. cbn.
    rewrite entry_ledger_after. now rewrite decide_True.
  - assert (Hlo : ledger_of (db w) = ∅) by (unfold ledger_of; now rewrite Hl).
    revert Hrun. unfold validateProperty. munfold. rewrite Hval.
    unfold prop_Get. cbn. rewrite !Hlo, !lookup_empty.
    destruct (validate _); cbn.
    + unfold ledger_store. cbn. rewrite Hl. discriminate.
    + intros [= <-]. rewrite entry_unfold. cbn. fold (ledger_of (db w)).
      now rewrite Hlo, lookup_empty.
Qed.

Lemma reset_frame_refl w : reset_frame w w.
Proof. repeat split. Qed.

Lemma reset_frame_trans w1 w2 w3 :
  reset_frame w1 w2 -> reset_frame w2 w3 -> reset_frame w1 w3.
Proof.
  intros (?&Hs1&?&?&?) (?&Hs2&?&?&?).
  split; [congruence|]. split; [exact (same_objects_trans _ _ _ Hs1 Hs2)|].
  repeat split; congruence.
Qed.

Lemma reset_frame_emit e w : reset_frame w (emit e w).
Proof. repeat split. Qed.

Lemma reset_frame_set p v x w :
  reset_frame w (update_prop p (with_value x) (emit (ESet p v) w)).
Proof.
  split; [reflexivity|]. split; [|repeat split].
  exact (with_value_same_objects p x (emit (ESet p v) w)).
Qed.

Lemma keeps_refl q w : keeps q w w.
Proof. split; [apply reset_frame_refl|tauto]. Qed.

Lemma keeps_trans q w1 w2 w3 : keeps q w1 w2 -> keeps q w2 w3 -> keeps q w1 w3.
Proof.
  intros [Hf1 Hc1] [Hf2 Hc2]. split; [exact (reset_frame_trans _ _ _ Hf1 Hf2)|tauto].
Qed.

Lemma keeps_emit q e w : keeps q w (emit e w).
Proof. split; [apply reset_frame_emit|]. intros Hc. exact Hc. Qed.

Lemma keeps_set q p v x w :
  p <> q -> keeps q w (update_prop p (with_value x) (emit (ESet p v) w)).
Proof.
  intros Hne. split; [apply reset_frame_set|].
  intros Hc validate. unfold consistent, entry, owner in *.
  rewrite update_prop_lookup. rewrite decide_False by done. apply Hc.
Qed.

Lemma validateProperty_keeps q prop widget :
  respects (keeps q) (validateProperty prop widget).
Proof.
  intros w. pose proof (validateProperty_ledger_only prop widget w) as Hlo.
  split; [now apply ledger_only_reset_frame|].
  intros Hc validate Hval.
  destruct (ledger_only_db _ _ Hlo) as (_ & _ & Hpw & _).
  destruct Hlo as (_ & Hps & _ & _).
  unfold owner. rewrite Hpw. fold (owner w q). rewrite Hps in Hval |- *.
  destruct (validateProperty_entry prop widget w (owner w q) q)
    as [->|(Hw & -> & validate' & l & Hval' & _ & ->)].
  - now apply Hc.
  - congruence.
Qed.

(** The steps of [Reset] for any property but [q] keep [q] consistent. *)
Lemma reset_field_keeps q prop field :
  prop <> q -> respects (keeps q) (reset_field prop field).
Proof.
  intros Hne. apply (respects_reset_field (keeps q) (fun p => p <> q));
    auto using keeps_refl, keeps_emit, keeps_set, validateProperty_keeps.
  apply keeps_trans.
Qed.

Lemma walk_names_keeps q f prop names p s :
  (forall field, respects (keeps q) (f prop field)) ->
  respects (keeps q) (walk_names f prop names p s).
Proof.
  apply (respects_walk_names (keeps q));
    auto using keeps_refl, keeps_emit. apply keeps_trans.
Qed.

Lemma reset_validate_establishes prop e w w' :
  reset_validate prop e w = Ret None w' -> consistent w' prop.
Proof.
  destruct e as [err|]; cbn [reset_validate]; [discriminate|].
  unfold bind at 1, get_world. intros Hrun.
  apply bind_inv_Ret in Hrun as ([] & w1 & Hval & Hret). injection Hret as <-.
  fold (owner w prop) in Hval.
  pose proof (validateProperty_ledger_only prop (owner w prop) w) as Hlo.
  rewrite Hval in Hlo. cbn in Hlo.
  destruct (ledger_only_db _ _ Hlo) as (_ & _ & Hpw & _).
  destruct Hlo as (_ & Hps & _ & _).
  intros validate Hv. unfold owner. rewrite Hpw. fold (owner w prop).
  rewrite Hps in Hv |- *. now apply (validateProperty_establishes _ _ _ _ _ Hval).
Qed.

Lemma reset_field_establishes prop field w w' :
  reset_field prop field w = Ret None w' -> consistent w' prop.
Proof.
  unfold reset_field. intros Hrun.
  apply bind_inv_Ret in Hrun as (cur & w1 & _ & Hrun).
  apply bind_inv_Ret in Hrun as (e & w2 & _ & Hrun).
  now apply reset_validate_establishes in Hrun.
Qed.

Lemma walk_names_establishes prop names p s w w' :
  names <> [] ->
  walk_names reset_field prop names p s w = Ret None w' ->
  consistent w' prop.
Proof.
  assert (HN : forall r, respects (keeps prop) (rv_IsNil r))
    by (intros; apply respects_rv_IsNil; eauto using keeps_refl, keeps_trans).
  assert (HI : forall r, respects (keeps prop) (rv_Indirect r))
    by (intros; apply respects_rv_Indirect; eauto using keeps_refl, keeps_trans).
  assert (HK : forall r, respects (keeps prop) (rv_Kind r))
    by (intros; apply respects_rv_Kind; eauto using keeps_refl, keeps_trans).
  revert p s w. induction names as [|name rest IH]; [congruence|].
  intros p s w _ Hrun. cbn [walk_names] in Hrun.
  apply bind_inv_Ret in Hrun as (field & w1 & _ & Hrun).
  destruct (negb (rv_IsValid field)).
  { apply bind_inv_Ret in Hrun as (? & ? & _ & Hrun). discriminate. }
  apply bind_inv_Ret in Hrun as (step & w2 & Hstep & Hrun).
  destruct step as [err|p']; [discriminate|].
  destruct rest as [|name2 rest].
  - apply bind_inv_Ret in Hstep as (e & w2' & Hf & Hret).
    destruct e as [err|]; [discriminate|]. injection Hret as <- <-.
    apply reset_field_establishes in Hf.
    set (tail := bind _ _) in Hrun.
    assert (Htail : respects (keeps prop) tail).
    { subst tail.
      apply (respects_bind _ (keeps_trans prop)); [apply HN|]. intros [|].
      { apply respects_ret, keeps_refl. }
      apply (respects_bind _ (keeps_trans prop)); [apply HI|]. intros s'.
      apply (respects_bind _ (keeps_trans prop)); [apply HK|]. intros k.
      destruct (decide _); apply respects_ret, keeps_refl. }
    specialize (Htail w2'). rewrite Hrun in Htail. now apply Htail.
  - apply bind_inv_Ret in Hrun as (isnil & w3 & _ & Hrun).
    destruct isnil; [discriminate|].
    apply bind_inv_Ret in Hrun as (s' & w4 & _ & Hrun).
    apply bind_inv_Ret in Hrun as (k & w5 & _ & Hrun).
    destruct (decide (k = KStruct)); [|discriminate].
    now apply IH in Hrun.
Qed.

Lemma split_dots_nonempty path : split_dots path <> [].
Proof.
  induction path as [|a rest IH]; cbn; [discriminate|].
  destruct (decide _); [discriminate|]. now destruct (split_dots rest).
Qed.

Lemma rv_current_world r w : exists r', rv_current r w = Ret r' w.
Proof. destruct r; cbn; eauto. Qed.

Lemma rv_Kind_world r w k w1 : rv_Kind r w = Ret k w1 -> w1 = w.
Proof.
  unfold rv_Kind, bind. destruct (rv_current_world r w) as [r' ->].
  destruct r'; cbn; unfold ret, panic; congruence.
Qed.

Lemma rv_IsNil_world r w b w1 : rv_IsNil r w = Ret b w1 -> w1 = w.
Proof.
  unfold rv_IsNil, bind. destruct (rv_current_world r w) as [r' ->].
  destruct r' as [|[] ?]; cbn; unfold ret, panic; congruence.
Qed.

Lemma rv_Indirect_world r w s w1 : rv_Indirect r w = Ret s w1 -> w1 = w.
Proof.
  unfold rv_Indirect, bind. destruct (rv_current_world r w) as [r' ->].
  destruct r' as [|[? ?|? ? ?|? ? ?|? ?|?|? [l|]|? ?|? ? ?|?] ?]; cbn; unfold ret;
    try congruence.
  destruct (heap w !! l); congruence.
Qed.

Lemma prop_Source_string_world p w s w1 :
  prop_Source_string p w = Ret s w1 -> w1 = w.
Proof. unfold prop_Source_string. destruct (as_string _); congruence. Qed.

Lemma rv_IsNil_ValueOf i w b w1 w2 :
  rv_Kind (reflect_ValueOf i) w = Ret KPtr w2 ->
  rv_IsNil (reflect_ValueOf i) w = Ret b w1 ->
  b = true <-> exists t, i = Some (VPtr t None).
Proof.
  destruct i as [[? ?|? ? ?|? ? ?|? ?|?|t [l|]|? ?|? ? ?|?]|]; cbn;
    unfold bind, ret, panic; cbn; intros [=]; intros [= <- <-];
    (split; [try discriminate; eauto|]); try (intros [? [=]]); try reflexivity.
Qed.

(** What a successful [forEach] has done: nothing, over a nil pointer; or
    the loop over the properties, started in the same world. *)
Lemma forEach_inv f w w' :
  forEach f w = Ret None w' ->
  (exists t, dataSource (db w) = Some (VPtr t None) /\ w' = w)
  \/ (exists s,
        (forall t, dataSource (db w) <> Some (VPtr t None))
        /\ for_range_err (properties (db w)) (fun prop =>
             let* path := prop_Source_string prop in
             walk_names f prop (split_dots path)
               (reflect_ValueOf (dataSource (db w))) s) w = Ret None w').
Proof.
  unfold forEach. unfold bind at 1, get_world. intros Hrun.
  apply bind_inv_Ret in Hrun as (k & w1 & Hk & Hrun).
  pose proof (rv_Kind_world _ _ _ _ Hk) as ->.
  destruct (decide (k = KPtr)) as [->|]; [|discriminate].
  apply bind_inv_Ret in Hrun as (isnil & w1 & Hnil & Hrun).
  pose proof (rv_IsNil_world _ _ _ _ Hnil) as ->.
  pose proof (rv_IsNil_ValueOf _ _ _ _ _ Hk Hnil) as Hiff.
  destruct isnil.
  - left. injection Hrun as <-. destruct Hiff as [Hiff _].
    destruct (Hiff eq_refl) as [t Ht]. eauto.
  - right.
    apply bind_inv_Ret in Hrun as (s & w1 & Hs & Hrun).
    apply rv_Indirect_world in Hs as ->.
    apply bind_inv_Ret in Hrun as (ks & w1 & Hks & Hrun).
    apply rv_Kind_world in Hks as ->.
    destruct (decide (ks = KStruct)); [|discriminate].
    exists s. split; [|exact Hrun].
    intros t Ht. destruct Hiff as [_ Hiff]. discriminate Hiff. eauto.
Qed.

(** A loop every successful turn of which keeps an invariant. *)
Lemma for_range_err_inv {A} (J : World -> Prop) (body : A -> M (option error)) l :
  (forall x w w', In x l -> J w -> body x w = Ret None w' -> J w') ->
  forall w w', J w -> for_range_err l body w = Ret None w' -> J w'.
Proof.
  induction l as [|x l IH]; intros Hb w w' HJ Hrun; cbn [for_range_err] in Hrun.
  - now injection Hrun as <-.
  - apply bind_inv_Ret in Hrun as (e & w1 & Hx & Hrun).
    destruct e as [err|]; [discriminate|].
    apply (IH (fun y w w' Hy => Hb y w w' (or_intror Hy)) w1); [|exact Hrun].
    apply (Hb x w w1); [now left|exact HJ|exact Hx].
Qed.

(** A loop every successful turn of which settles its own element and
    unsettles no other. *)
Lemma for_range_err_all {A} (K : A -> World -> Prop)
  (body : A -> M (option error)) l :
  (forall x w w', body x w = Ret None w' ->
     K x w' /\ forall y, K y w -> K y w') ->
  forall w w', for_range_err l body w = Ret None w' ->
  forall x, In x l -> K x w'.
Proof.
  intros Hb. induction l as [|x0 l IH]; intros w w' Hrun x Hin; [destruct Hin|].
  cbn [for_range_err] in Hrun.
  apply bind_inv_Ret in Hrun as (e & w1 & Hx & Hrun).
  destruct e as [err|]; [discriminate|].
  destruct Hin as [<-|Hin]; [|now apply (IH w1)].
  destruct (Hb _ _ _ Hx) as [HK _].
  apply (for_range_err_inv (K x0) body l) with (w := w1); [|exact HK|exact Hrun].
  intros y w2 w3 _ HK2 Hy. now apply (Hb _ _ _ Hy).
Qed.

Lemma sets_only_refl p w : sets_only p w w.
Proof. exists []. rewrite app_nil_r. split; [reflexivity|]. intros ? ? []. Qed.

Lemma sets_only_trans p w1 w2 w3 :
  sets_only p w1 w2 -> sets_only p w2 w3 -> sets_only p w1 w3.
Proof.
  intros (t1 & H1 & Hp1) (t2 & H2 & Hp2). exists (t1 ++ t2)%list.
  split; [now rewrite H2, H1, app_assoc|].
  intros q v Hin. apply in_app_or in Hin as [Hin|Hin]; eauto.
Qed.

Lemma sets_only_emit p e w : is_set e = false -> sets_only p w (emit e w).
Proof.
  intros He. exists [e]. split; [reflexivity|].
  intros q v [Heq|[]]. subst e. discriminate.
Qed.

Lemma sets_only_same_trace p w w' : trace w' = trace w -> sets_only p w w'.
Proof.
  intros Ht. exists []. rewrite app_nil_r. split; [exact Ht|]. intros ? ? [].
Qed.

Lemma sets_only_set p v x w :
  sets_only p w (update_prop p (with_value x) (emit (ESet p v) w)).
Proof.
  exists [ESet p v]. split; [reflexivity|]. intros q v' [[= <- _]|[]]. reflexivity.
Qed.

Lemma validateProperty_sets_only p prop widget :
  respects (sets_only p) (validateProperty prop widget).
Proof.
  apply respects_validateProperty;
    eauto using sets_only_refl, sets_only_trans, sets_only_emit.
  intros l w. now apply sets_only_same_trace.
Qed.

Lemma walk_names_reset_sets_only prop names p s :
  respects (sets_only prop) (walk_names reset_field prop names p s).
Proof.
  apply (respects_walk_names (sets_only prop));
    eauto using sets_only_refl, sets_only_trans, sets_only_emit.
  intros field. apply (respects_reset_field (sets_only prop) (eq prop));
    eauto using sets_only_refl, sets_only_trans, sets_only_emit,
      validateProperty_sets_only.
  intros q v x w <-. apply sets_only_set.
Qed.

(** One turn of the loop of [Reset]. *)
Lemma reset_turn prop p s w w' :
  (let* path := prop_Source_string prop in
   walk_names reset_field prop (split_dots path) p s) w = Ret None w' ->
  consistent w' prop
  /\ (forall q, consistent w q -> consistent w' q)
  /\ sets_only prop w w'.
Proof.
  intros Hrun. apply bind_inv_Ret in Hrun as (path & w1 & Hpath & Hrun).
  apply prop_Source_string_world in Hpath as ->.
  assert (Hprop : consistent w' prop).
  { eapply walk_names_establishes; [apply split_dots_nonempty|exact Hrun]. }
  split; [exact Hprop|]. split.
  - intros q Hq. destruct (decide (prop = q)) as [<-|Hne]; [exact Hprop|].
    pose proof (walk_names_keeps q reset_field prop (split_dots path) p s
                  (fun field => reset_field_keeps q prop field Hne) w) as [_ Hk].
    rewrite Hrun in Hk. now apply Hk.
  - pose proof (walk_names_reset_sets_only prop (split_dots path) p s w) as Hs.
    now rewrite Hrun in Hs.
Qed.



(** ** Numbers through float64 *)









(** ** Reading the heap *)

Lemma heap_read_ret {A} (a : A) : heap_read (ret a).
Proof. intros h. exists (inl a). reflexivity. Qed.

Lemma heap_read_panic {A} msg : heap_read (@panic A msg).
Proof. intros h. exists (inr msg). reflexivity. Qed.

Lemma heap_read_bind {A B} (m : M A) (k : A -> M B) :
  heap_read m -> (forall a, heap_read (k a)) -> heap_read (bind m k).
Proof.
  intros Hm Hk h. destruct (Hm h) as [[a|msg] Hout].
  - destruct (Hk a h) as [out Hout2]. exists out. intros w Hw.
    unfold bind. rewrite (Hout w Hw). now apply Hout2.
  - exists (inr msg). intros w Hw. unfold bind. now rewrite (Hout w Hw).
Qed.

Lemma heap_read_world {A} (m : M A) w : heap_read m -> final_world (m w) = w.
Proof.
  intros Hm. destruct (Hm (heap w)) as [[a|msg] Hout]; now rewrite (Hout w eq_refl).
Qed.

Lemma heap_read_rv_current r : heap_read (rv_current r).
Proof.
  intros h. destruct r as [|v pl].
  - exists (inl RInvalid). reflexivity.
  - exists (inl (RV (default v (load pl h)) pl)). intros w <-. reflexivity.
Qed.

(** Splits the goal that a call built from reads is a read. *)
Ltac heap_read :=
  repeat first
    [ solve [auto]
    | apply heap_read_ret
    | apply heap_read_panic
    | apply heap_read_bind; [|intros ?]
    | match goal with
      | |- heap_read (match ?x with _ => _ end) => destruct x
      end ].

Lemma heap_read_rv_Kind r : heap_read (rv_Kind r).
Proof. pose proof heap_read_rv_current. unfold rv_Kind. heap_read. Qed.

Lemma heap_read_rv_TypeName r : heap_read (rv_TypeName r).
Proof. pose proof heap_read_rv_current. unfold rv_TypeName. heap_read. Qed.

Lemma heap_read_rv_IsNil r : heap_read (rv_IsNil r).
Proof. pose proof heap_read_rv_current. unfold rv_IsNil. heap_read. Qed.

Lemma heap_read_rv_Indirect r : heap_read (rv_Indirect r).
Proof.
  pose proof heap_read_rv_current. unfold rv_Indirect. heap_read.
  intros h. destruct (h !! l) as [v|] eqn:Hl.
  - exists (inl (RV v (PHeap l))). intros w <-. now rewrite Hl.
  - eexists (inr _). intros w <-. now rewrite Hl.
Qed.

Lemma heap_read_rv_FieldByName s name : heap_read (rv_FieldByName s name).
Proof. pose proof heap_read_rv_current. unfold rv_FieldByName. heap_read. Qed.

Lemma heap_read_last_checks p : heap_read (last_checks p).
Proof.
  pose proof heap_read_rv_IsNil. pose proof heap_read_rv_Indirect.
  pose proof heap_read_rv_Kind. unfold last_checks. heap_read.
Qed.

Lemma bind_read_Ret {A B} (m : M A) (k : A -> M B) h a :
  (forall w, heap w = h -> m w = Ret a w) ->
  forall w, heap w = h -> bind m k w = k a w.
Proof. intros Hout w Hw. unfold bind. now rewrite (Hout w Hw). Qed.

Lemma bind_read_Panic {A B} (m : M A) (k : A -> M B) h msg :
  (forall w, heap w = h -> m w = Panic msg w) ->
  forall w, heap w = h -> bind m k w = Panic msg w.
Proof. intros Hout w Hw. unfold bind. now rewrite (Hout w Hw). Qed.

(** Rewrites the read at the head of the goal with what it gives. *)
Ltac read_step H w Hw :=
  first [ rewrite (bind_read_Ret _ _ _ _ H w Hw)
        | rewrite (bind_read_Panic _ _ _ _ H w Hw) ].



(** ** float32 through float64 *)



(** ** Reset and then Submit *)

(** Over a given heap and data source [forEach] either runs its loop, from
    the same record whatever function it carries, or ends before the loop
    and leaves the world as it was. *)
Lemma forEach_split h ds :
  (exists s, forall f w, heap w = h -> dataSource (db w) = ds ->
     forEach f w =
     for_range_err (properties (db w)) (turn f (reflect_ValueOf ds) s) w)
  \/ (forall f w, heap w = h -> dataSource (db w) = ds ->
        exists e, forEach f w = Ret e w \/ exists msg, forEach f w = Panic msg w).
Proof.
  set (root := reflect_ValueOf ds).
  destruct (heap_read_rv_Kind root h) as [[k|msg] Hk].
  2:{ right. intros f w Hw <-. exists None. right. exists msg.
      unfold forEach. unfold bind at 1, get_world. fold root.
      now read_step Hk w Hw. }
  destruct (decide (k = KPtr)) as [->|Hne].
  2:{ right. intros f w Hw <-. eexists. left.
      unfold forEach. unfold bind at 1, get_world. fold root.
      read_step Hk w Hw. rewrite decide_False by done. reflexivity. }
  destruct (heap_read_rv_IsNil root h) as [[isnil|msg] Hnil].
  2:{ right. intros f w Hw <-. exists None. right. exists msg.
      unfold forEach. unfold bind at 1, get_world. fold root.
      read_step Hk w Hw. rewrite decide_True by done. now read_step Hnil w Hw. }
  destruct isnil.
  { right. intros f w Hw <-. eexists. left.
    unfold forEach. unfold bind at 1, get_world. fold root.
    read_step Hk w Hw. rewrite decide_True by done. read_step Hnil w Hw.
    reflexivity. }
  destruct (heap_read_rv_Indirect root h) as [[s|msg] Hs].
  2:{ right. intros f w Hw <-. exists None. right. exists msg.
      unfold forEach. unfold bind at 1, get_world. fold root.
      read_step Hk w Hw. rewrite decide_True by done. read_step Hnil w Hw.
      now read_step Hs w Hw. }
  destruct (heap_read_rv_Kind s h) as [[ks|msg] Hks].
  2:{ right. intros f w Hw <-. exists None. right. exists msg.
      unfold forEach. unfold bind at 1, get_world. fold root.
      read_step Hk w Hw. rewrite decide_True by done. read_step Hnil w Hw.
      read_step Hs w Hw. now read_step Hks w Hw. }
  destruct (decide (ks = KStruct)) as [->|Hns].
  2:{ right. intros f w Hw <-. eexists. left.
      unfold forEach. unfold bind at 1, get_world. fold root.
      read_step Hk w Hw. rewrite decide_True by done. read_step Hnil w Hw.
      read_step Hs w Hw. read_step Hks w Hw. rewrite decide_False by done.
      reflexivity. }
  left. exists s. intros f w Hw <-.
  unfold forEach. unfold bind at 1, get_world. fold root.
  read_step Hk w Hw. rewrite decide_True by done. read_step Hnil w Hw.
  read_step Hs w Hw. read_step Hks w Hw. rewrite decide_True by done.
  reflexivity.
Qed.













Lemma validateProperty_reset_frame prop widget :
  respects reset_frame (validateProperty prop widget).
Proof. intros w. apply ledger_only_reset_frame, validateProperty_ledger_only. Qed.

























(** * Further properties *)

(** ** More about the monad *)

Lemma bind_assoc {A B C} (m : M A) (k1 : A -> M B) (k2 : B -> M C) w :
  bind (bind m k1) k2 w = bind m (fun a => bind (k1 a) k2) w.
Proof. unfold bind. now destruct (m w). Qed.

Lemma bind_ext {A B} (m : M A) (k1 k2 : A -> M B) w :
  (forall a w1, k1 a w1 = k2 a w1) -> bind m k1 w = bind m k2 w.
Proof. intros Hk. unfold bind. destruct (m w); [apply Hk|reflexivity]. Qed.

Lemma for_range_app {A} (l1 l2 : list A) body w :
  for_range (l1 ++ l2) body w
  = bind (for_range l1 body) (fun _ => for_range l2 body) w.
Proof.
  revert w. induction l1 as [|x l1 IH]; intros w; cbn [for_range app].
  - reflexivity.
  - rewrite bind_assoc. apply bind_ext. intros _ w1. apply IH.
Qed.

Lemma for_range_map {A B} (g : A -> B) (l : list A) body w :
  for_range (map g l) body w = for_range l (fun x => body (g x)) w.
Proof.
  revert w. induction l as [|x l IH]; intros w; cbn [for_range map].
  - reflexivity.
  - apply bind_ext. intros _ w1. apply IH.
Qed.

(** ** The ledger *)

Lemma ledger_of_None d : widget2Property2Error d = None -> ledger_of d = ∅.
Proof. unfold ledger_of. now intros ->. Qed.

Lemma ledger_of_Some d l : widget2Property2Error d = Some l -> ledger_of d = l.
Proof. unfold ledger_of. now intros ->. Qed.

(** X1.  [validateProperty] panics in exactly one situation: the ledger is
    still the nil map of a binder that never began a session, and the
    property's validator rejects the property's value (the write to the nil
    map panics).  Otherwise the call returns. *)
Theorem validateProperty_panics_only_on_the_nil_ledger prop widget w :
  panicked (validateProperty prop widget w) = true <->
  widget2Property2Error (db w) = None
  /\ exists validate err,
       prop_validator (props w prop) = Some validate
       /\ validate (prop_value (props w prop)) = Some err.
Proof.
  destruct (prop_validator (props w prop)) as [validate|] eqn:Hval.
  - destruct (widget2Property2Error (db w)) as [l|] eqn:Hl.
    + destruct (validateProperty_run prop widget w validate l Hval Hl)
        as (w' & -> & _).
      cbn. split; [discriminate|]. now intros [? _].
    + unfold validateProperty. munfold. rewrite Hval. unfold prop_Get. cbn.
      rewrite (ledger_of_None _ Hl), lookup_empty.
      destruct (validate _) as [err|] eqn:Hv; cbn.
      * unfold ledger_store. cbn. rewrite Hl. cbn.
        split; [|reflexivity]. intros _. split; [reflexivity|].
        exists validate, err. split; [reflexivity|exact Hv].
      * split; [discriminate|]. intros [_ (validate' & err & [= <-] & He)].
        congruence.
  - rewrite (validateProperty_no_validator _ _ _ Hval). cbn.
    split; [discriminate|]. now intros [_ (? & ? & ? & _)].
Qed.

Lemma ledger_after_wf (widget : Widget) (prop : Property)
  (outcome : option error) (l : Ledger) :
  (forall wd : Widget, l !! wd <> Some ∅) ->
  forall wd : Widget, ledger_after widget prop outcome l !! wd <> Some ∅.
Proof.
  intros Hwf wd. unfold ledger_after. destruct outcome as [err|].
  - destruct (decide (widget = wd)) as [->|Hne].
    + rewrite lookup_insert_eq. intros [= H]. now apply insert_non_empty in H.
    + rewrite lookup_insert_ne by done. apply Hwf.
  - destruct (l !! widget) as [m|] eqn:Hm; [|apply Hwf].
    destruct (decide (delete prop m = ∅)) as [He|Hne].
    + destruct (decide (widget = wd)) as [->|Hne'].
      * now rewrite lookup_delete_eq.
      * rewrite lookup_delete_ne by done. apply Hwf.
    + destruct (decide (widget = wd)) as [->|Hne'].
      * rewrite lookup_insert_eq. congruence.
      * rewrite lookup_insert_ne by done. apply Hwf.
Qed.

Lemma validateProperty_ledger prop widget w :
  let w' := final_world (validateProperty prop widget w) in
  widget2Property2Error (db w') = widget2Property2Error (db w)
  \/ exists validate l,
       prop_validator (props w prop) = Some validate
       /\ widget2Property2Error (db w) = Some l
       /\ widget2Property2Error (db w') =
          Some (ledger_after widget prop (validate (prop_value (props w prop))) l).
Proof.
  destruct (prop_validator (props w prop)) as [validate|] eqn:Hval.
  - destruct (widget2Property2Error (db w)) as [l|] eqn:Hl.
    + destruct (validateProperty_run prop widget w validate l Hval Hl)
        as (w' & -> & Hdb & _).
      cbn. right. exists validate, l. rewrite Hdb. now repeat split.
    + left. unfold validateProperty. munfold. rewrite Hval. unfold prop_Get. cbn.
      rewrite (ledger_of_None _ Hl), lookup_empty.
      destruct (validate _); cbn; [|exact Hl].
      unfold ledger_store. cbn. rewrite Hl. cbn. exact Hl.
  - left. now rewrite (validateProperty_no_validator _ _ _ Hval).
Qed.

Lemma validateProperty_wf prop widget w :
  ledger_wf w -> ledger_wf (final_world (validateProperty prop widget w)).
Proof.
  intros Hwf. unfold ledger_wf in *.
  destruct (validateProperty_ledger prop widget w)
    as [Heq|(validate & l & _ & Hl & Hl')].
  - unfold ledger_of in *. now rewrite Heq.
  - rewrite (ledger_of_Some _ _ Hl'). apply ledger_after_wf.
    now rewrite <- (ledger_of_Some _ _ Hl).
Qed.

Lemma validation_steps_wf w w' :
  validation_steps w w' -> ledger_wf w -> ledger_wf w'.
Proof.
  induction 1 as [w|w w1 w' [Hq _] _ IH|prop widget w w' _ IH]; intros Hwf.
  - exact Hwf.
  - apply IH. unfold ledger_wf, ledger_of in *. now rewrite Hq.
  - apply IH. now apply validateProperty_wf.
Qed.

Lemma ledger_kept_or_fresh_refl w : ledger_kept_or_fresh w w.
Proof. now left. Qed.

Lemma ledger_kept_or_fresh_trans w1 w2 w3 :
  ledger_kept_or_fresh w1 w2 -> ledger_kept_or_fresh w2 w3 ->
  ledger_kept_or_fresh w1 w3.
Proof.
  unfold ledger_kept_or_fresh. intros [H1|H1] [H2|H2]; rewrite ?H2, ?H1; auto.
Qed.

Lemma bind_widget_keeps_ledger widget w :
  widget2Property2Error (db (final_world (bind_widget widget w)))
  = widget2Property2Error (db w).
Proof.
  unfold bind_widget, name2Property, bind. destruct widget as [i|]; [|reflexivity].
  apply (for_range_final
           (fun w w' => widget2Property2Error (db w') = widget2Property2Error (db w))).
  - reflexivity.
  - intros w1 w2 w3 H1 H2. now rewrite H2.
  - intros [n p] w1. cbn.
    destruct (bind_property_run (Some i) p w1) as (w2 & Hrun & _).
    revert Hrun. unfold bind_property. munfold.
    destruct (as_string _); intros [= <-]; reflexivity.
Qed.

Lemma SetBoundWidgets_ledger ws :
  respects ledger_kept_or_fresh (SetBoundWidgets ws).
Proof.
  intros w. unfold SetBoundWidgets, bind, modify.
  pose proof (detach_all_only_handlers w) as (_ & _ & _ & Hdb & _).
  destruct (detach_all w) as [[] w1|msg w1]; cbn in Hdb |- *.
  - right.
    pose proof (for_range_final
      (fun w w' => widget2Property2Error (db w') = widget2Property2Error (db w))
      bind_widget ws) as H.
    rewrite H; [reflexivity|reflexivity| |].
    + intros w2 w3 w4 H1 H2. now rewrite H2.
    + intros x w2. apply bind_widget_keeps_ledger.
  - left. now rewrite Hdb.
Qed.

Lemma run_host_wf op w : ledger_wf w -> ledger_wf (final_world (run_host op w)).
Proof.
  intros Hwf. destruct op as [ws|op]; cbn [run_host].
  - destruct (SetBoundWidgets_ledger ws w) as [H|H];
      unfold ledger_wf, ledger_of in *; rewrite H; [exact Hwf|].
    intros widget. cbn. now rewrite lookup_empty.
  - eapply validation_steps_wf; [apply by_validation_run_op|exact Hwf].
Qed.

Lemma CanSubmit_no_entry w :
  ledger_wf w ->
  CanSubmit (db w) = true <-> forall widget prop, entry w widget prop = None.
Proof.
  intros Hwf. unfold CanSubmit, ledger_empty, entry.
  rewrite bool_decide_eq_true, map_size_empty_iff. split.
  - intros -> widget prop. now rewrite lookup_empty.
  - intros Hnone. apply map_empty. intros widget.
    destruct (ledger_of (db w) !! widget) as [m|] eqn:Hm; [|reflexivity].
    exfalso. apply (Hwf widget). rewrite Hm. f_equal.
    apply map_empty. intros prop. specialize (Hnone widget prop).
    rewrite Hm in Hnone. exact Hnone.
Qed.

(** X2.  Whatever the host does with a binder -- sessions begun, data
    source or presenter set, [Reset], [Submit], validations, changes and
    sets of properties, returning or panicking -- the ledger never records
    a widget with an empty set of errors; so [CanSubmit()] is true exactly
    when no error is recorded for any property of any widget. *)
Theorem ledger_stays_well_formed (ops : list HostOp) (w : World) :
  ledger_wf w ->
  let w' := final_world (for_range ops run_host w) in
  ledger_wf w'
  /\ (CanSubmit (db w') = true <-> forall widget prop, entry w' widget prop = None).
Proof.
  intros Hwf w'.
  assert (Hwf' : ledger_wf w').
  { subst w'. revert Hwf.
    apply (for_range_final (fun w w' => ledger_wf w -> ledger_wf w')); auto.
    intros x w1. apply run_host_wf. }
  split; [exact Hwf'|now apply CanSubmit_no_entry].
Qed.

Lemma ledger_stays_well_formed_witness :
  let ops := [HBind [Some 4%nat]; HOp (OpValidate 5%nat (Some 4%nat)); HOp OpReset] in
  let w' := final_world (for_range ops run_host Sample.sourced) in
  ledger_wf w'
  /\ (CanSubmit (db w') = true <-> forall widget prop, entry w' widget prop = None).
Proof.
  apply (ledger_stays_well_formed
           [HBind [Some 4%nat]; HOp (OpValidate 5%nat (Some 4%nat)); HOp OpReset]
           Sample.sourced).
  intros widget. vm_compute. discriminate.
Defined.

Lemma ledger_after_idempotent (widget : Widget) (prop : Property)
  (outcome : option error) (l : Ledger) :
  ledger_after widget prop outcome (ledger_after widget prop outcome l)
  = ledger_after widget prop outcome l.
Proof.
  unfold ledger_after. destruct outcome as [err|].
  - rewrite lookup_insert_eq. cbn. now rewrite !insert_insert_eq.
  - destruct (l !! widget) as [m|] eqn:Hm; [|now rewrite Hm].
    destruct (decide (delete prop m = ∅)) as [He|Hne].
    + now rewrite lookup_delete_eq.
    + rewrite lookup_insert_eq, delete_delete_eq.
      destruct (decide (delete prop m = ∅)); [done|]. now rewrite insert_insert_eq.
Qed.

Lemma presentation_quiet w widget outcome :
  publications (presentation w widget outcome) = 0%nat.
Proof.
  unfold presentation.
  destruct (errorPresenter (db w)), outcome, (ledger_of (db w) !! widget);
    reflexivity.
Qed.

(** A validation on the nil ledger changes nothing but the trace, and
    publishes nothing. *)
Lemma validateProperty_nil_ledger prop widget w :
  widget2Property2Error (db w) = None ->
  let w' := final_world (validateProperty prop widget w) in
  db w' = db w /\ props w' = props w /\ heap w' = heap w
  /\ publications (trace w') = publications (trace w).
Proof.
  intros Hl. unfold validateProperty. munfold.
  destruct (prop_validator (props w prop)) as [validate|]; [|now cbn].
  unfold prop_Get. cbn. rewrite (ledger_of_None _ Hl), lookup_empty.
  destruct (validate _); cbn.
  - unfold ledger_store. cbn. rewrite Hl. cbn.
    rewrite !publications_app. cbn. repeat split; lia.
  - rewrite !publications_app. cbn. repeat split; lia.
Qed.

(** X3.  Validation is idempotent: a second run of [validateProperty] for
    the same property and widget, right after the first, leaves the binder
    (the ledger with it), the properties and the data source as the first
    run left them, and publishes no eligibility change.  (A validator
    gives the same verdict for the same value.) *)
Theorem validateProperty_is_idempotent prop widget w :
  let w1 := final_world (validateProperty prop widget w) in
  let w2 := final_world (validateProperty prop widget w1) in
  db w2 = db w1 /\ props w2 = props w1 /\ heap w2 = heap w1
  /\ publications (trace w2) = publications (trace w1).
Proof.
  intros w1 w2.
  destruct (prop_validator (props w prop)) as [validate|] eqn:Hval.
  - destruct (widget2Property2Error (db w)) as [l|] eqn:Hl.
    + destruct (validateProperty_run prop widget w validate l Hval Hl)
        as (w1' & Hrun1 & Hdb & Hh & Hp & Hw & Ht).
      assert (Hw1 : w1 = w1') by (subst w1; now rewrite Hrun1).
      clearbody w1. subst w1'.
      assert (Hval1 : prop_validator (props w1 prop) = Some validate)
        by now rewrite Hp.
      assert (Hl1 : widget2Property2Error (db w1) =
                    Some (ledger_after widget prop
                            (validate (prop_value (props w prop))) l))
        by now rewrite Hdb.
      destruct (validateProperty_run prop widget w1 validate _ Hval1 Hl1)
        as (w2' & Hrun & Hdb2 & Hh2 & Hp2 & _ & Ht2).
      subst w2. rewrite Hrun. cbn [final_world].
      rewrite Hp in Hdb2, Ht2. rewrite ledger_after_idempotent in Hdb2, Ht2.
      split; [|split; [exact Hp2|split; [exact Hh2|]]].
      * rewrite Hdb2. now apply set_ledger_id.
      * rewrite Ht2, !publications_app, presentation_quiet.
        rewrite (ledger_empty_Some _ _ Hl1). unfold publication.
        rewrite eqb_reflx. cbn. lia.
    + destruct (validateProperty_nil_ledger prop widget w Hl) as (Hdb & _).
      apply validateProperty_nil_ledger. subst w1. cbv zeta in Hdb.
      now rewrite Hdb.
  - assert (Hw1 : w1 = w)
      by (subst w1; now rewrite (validateProperty_no_validator _ _ _ Hval)).
    subst w2. rewrite Hw1, (validateProperty_no_validator _ _ _ Hval).
    now cbn.
Qed.

Lemma ledger_after_round_trip (widget : Widget) (prop : Property) (err : error)
  (l : Ledger) :
  (forall wd : Widget, l !! wd <> Some ∅) ->
  l !! widget ≫= (.!! prop) = None ->
  ledger_after widget prop None (ledger_after widget prop (Some err) l) = l.
Proof.
  intros Hwf Hno. unfold ledger_after. rewrite lookup_insert_eq.
  destruct (l !! widget) as [m|] eqn:Hm; cbn in *.
  - rewrite (delete_insert_id _ _ _ Hno).
    destruct (decide (m = ∅)) as [->|_]; [now destruct (Hwf widget)|].
    rewrite insert_insert_eq. now apply insert_id.
  - rewrite delete_insert_id by apply lookup_empty.
    destruct (decide _) as [_|Hne]; [|done].
    now apply delete_insert_id.
Qed.

(** X4.  A failure that is corrected leaves no mark: when the ledger holds
    nothing for a property, a validation that fails records the error and
    makes the binder ineligible; once the property has a value its validator
    accepts, the next validation removes the entry and the binder is what
    it was before the failure.  Eligibility changed twice when the ledger
    was empty, and not at all otherwise. *)
Theorem failing_then_passing_restores_the_ledger prop widget w validate err v' :
  ledger_wf w ->
  widget2Property2Error (db w) <> None ->
  entry w widget prop = None ->
  prop_validator (props w prop) = Some validate ->
  validate (prop_value (props w prop)) = Some err ->
  validate v' = None ->
  let w1 := final_world (validateProperty prop widget w) in
  let w2 := final_world (validateProperty prop widget (edited prop v' w1)) in
  entry w1 widget prop = Some err
  /\ CanSubmit (db w1) = false
  /\ db w2 = db w
  /\ publications (trace w2) =
     (publications (trace w) + if CanSubmit (db w) then 2 else 0)%nat.
Proof.
  intros Hwf Hsome Hno Hval Hv Hv'.
  destruct (widget2Property2Error (db w)) as [l|] eqn:Hl; [clear Hsome|done].
  destruct (validateProperty_run prop widget w validate l Hval Hl)
    as (w1 & -> & Hdb & Hh & Hp & Hw & Ht).
  cbn [final_world]. rewrite Hv in Hdb, Ht.
  set (l1 := ledger_after widget prop (Some err) l) in *.
  assert (Hl1 : widget2Property2Error (db (edited prop v' w1)) = Some l1)
    by (unfold edited, update_prop; cbn; now rewrite Hdb).
  assert (Hval1 : prop_validator (props (edited prop v' w1) prop) = Some validate).
  { unfold edited. rewrite update_prop_lookup.
    destruct (decide (prop = prop)); [|done]. cbn. now rewrite Hp. }
  destruct (validateProperty_run prop widget _ validate l1 Hval1 Hl1)
    as (w2 & -> & Hdb2 & _ & _ & _ & Ht2).
  cbn [final_world].
  assert (Hv2 : prop_value (props (edited prop v' w1) prop) = v').
  { unfold edited. rewrite update_prop_lookup.
    destruct (decide (prop = prop)); [reflexivity|done]. }
  rewrite Hv2, Hv' in Hdb2, Ht2.
  assert (Hrt : ledger_after widget prop None l1 = l).
  { apply ledger_after_round_trip.
    - intros wd. rewrite <- (ledger_of_Some _ _ Hl). apply Hwf.
    - unfold entry in Hno. now rewrite (ledger_of_Some _ _ Hl) in Hno. }
  rewrite Hrt in Hdb2, Ht2.
  assert (He1 : l1 <> ∅) by apply insert_non_empty.
  cbv zeta. split; [|split; [|split]].
  - unfold entry. rewrite (ledger_of_Some _ l1) by now rewrite Hdb.
    unfold l1, ledger_after. rewrite lookup_insert_eq. cbn.
    apply lookup_insert_eq.
  - unfold CanSubmit. rewrite Hdb, ledger_empty_after.
    now apply bool_decide_eq_false.
  - rewrite Hdb2. change (db (edited prop v' w1)) with (db w1).
    rewrite Hdb. destruct (db w); cbn in *. now subst.
  - rewrite Ht2. change (trace (edited prop v' w1)) with (trace w1).
    rewrite Ht, !publications_app, !presentation_quiet.
    unfold CanSubmit. rewrite (ledger_empty_Some l1 _ Hl1).
    rewrite (bool_decide_eq_false_2 _ He1).
    rewrite (ledger_empty_Some l (db w) Hl).
    unfold publication. destruct (bool_decide (l = ∅)); cbn; lia.
Qed.

Lemma failing_then_passing_restores_the_ledger_witness :
  let w := Form.session in
  let w1 := final_world (validateProperty 0%nat (Some 0%nat) w) in
  let w2 := final_world (validateProperty 0%nat (Some 0%nat)
                           (edited 0%nat (Some (Sample.str "Bob")) w1)) in
  entry w1 (Some 0%nat) 0%nat = Some (OtherError "required")
  /\ CanSubmit (db w1) = false
  /\ db w2 = db w
  /\ publications (trace w2) =
     (publications (trace w) + if CanSubmit (db w) then 2 else 0)%nat.
Proof.
  apply (failing_then_passing_restores_the_ledger 0%nat (Some 0%nat)
           Form.session Form.required (OtherError "required")
           (Some (Sample.str "Bob"))).
  - intros widget. vm_compute. discriminate.
  - vm_compute. discriminate.
  - vm_compute. reflexivity.
  - vm_compute. reflexivity.
  - vm_compute. reflexivity.
  - vm_compute. reflexivity.
Defined.

(** X5.  What a validation that returns has done: the ledger holds for
    the property, under the widget, just what the validator said of the
    property's value; every other entry of the ledger is what it was; and
    nothing else of the world has changed but the trace. *)
Theorem validateProperty_records_the_verdict prop widget w w' validate :
  validateProperty prop widget w = Ret tt w' ->
  prop_validator (props w prop) = Some validate ->
  entry w' widget prop = validate (prop_value (props w prop))
  /\ (forall wd p, (wd, p) <> (widget, prop) -> entry w' wd p = entry w wd p)
  /\ ledger_only w w'.
Proof.
  intros Hrun Hval. split; [now apply validateProperty_establishes|]. split.
  - intros wd p Hne.
    pose proof (validateProperty_entry prop widget w wd p) as He.
    rewrite Hrun in He. cbn in He.
    destruct He as [He|(-> & -> & _)]; [exact He|now destruct Hne].
  - pose proof (validateProperty_ledger_only prop widget w) as Hlo.
    now rewrite Hrun in Hlo.
Qed.

Lemma validateProperty_records_the_verdict_witness :
  let w := Sample.strict_presented in
  let w' := final_world (validateProperty 5%nat (Some 4%nat) w) in
  entry w' (Some 4%nat) 5%nat = Sample.reject (prop_value (props w 5%nat))
  /\ (forall wd p, (wd, p) <> (Some 4%nat, 5%nat) -> entry w' wd p = entry w wd p)
  /\ ledger_only w w'.
Proof.
  apply (validateProperty_records_the_verdict 5%nat (Some 4%nat)
           Sample.strict_presented
           (final_world (validateProperty 5%nat (Some 4%nat) Sample.strict_presented))
           Sample.reject); vm_compute; reflexivity.
Defined.

(** ** Sessions: what [SetBoundWidgets] does to the subscriptions *)

Lemma event_Detach_run p h w w' :
  event_Detach p h w = Ret tt w' ->
  (h < length (prop_handlers (props w p)))%nat
  /\ w' = update_prop p (with_handlers (<[h := None]> (prop_handlers (props w p)))) w.
Proof.
  unfold event_Detach. destruct (decide _) as [Hlt|]; [|discriminate].
  now intros [= <-].
Qed.

Lemma detach_list (l : list (Property * nat)) :
  NoDup l.*1 ->
  forall w w', for_range l (fun ph => event_Detach ph.1 ph.2) w = Ret tt w' ->
  forall p,
    (forall h, (p, h) ∈ l ->
       (h < length (prop_handlers (props w p)))%nat
       /\ prop_handlers (props w' p) = <[h := None]> (prop_handlers (props w p)))
    /\ (p ∉ l.*1 -> prop_handlers (props w' p) = prop_handlers (props w p)).
Proof.
  induction l as [|[q k] l IH]; intros Hnd w w' Hrun p; cbn [for_range] in Hrun.
  - injection Hrun as <-. split; [|reflexivity].
    intros h Hin. now apply elem_of_nil in Hin.
  - apply bind_inv_Ret in Hrun as ([] & w1 & Hdet & Hrun).
    apply event_Detach_run in Hdet as [Hlt ->]. cbn [fst snd] in *.
    rewrite fmap_cons in Hnd. apply NoDup_cons in Hnd as [Hq Hnd].
    destruct (IH Hnd _ _ Hrun p) as [Hin Hout]. cbn [fst] in Hq.
    assert (Hother : p <> q ->
              prop_handlers (props (update_prop q
                (with_handlers (<[k := None]> (prop_handlers (props w q)))) w) p)
              = prop_handlers (props w p)).
    { intros Hne. rewrite update_prop_lookup. now rewrite decide_False by congruence. }
    assert (Hsame :
              prop_handlers (props (update_prop q
                (with_handlers (<[k := None]> (prop_handlers (props w q)))) w) q)
              = <[k := None]> (prop_handlers (props w q))).
    { rewrite update_prop_lookup. now rewrite decide_True. }
    split.
    + intros h Hel. apply elem_of_cons in Hel as [[= -> ->]|Hel].
      * split; [exact Hlt|]. rewrite Hout by exact Hq. exact Hsame.
      * assert (Hne : p <> q).
        { intros ->. apply Hq. apply list_elem_of_fmap. now exists (q, h). }
        destruct (Hin h Hel) as [Hlt' ->]. now rewrite (Hother Hne) in *.
    + intros Hnot. rewrite fmap_cons in Hnot. cbn [fst] in Hnot.
      apply not_elem_of_cons in Hnot as [Hne Hnot].
      now rewrite (Hout Hnot), (Hother Hne).
Qed.

Lemma detach_all_run w w' :
  detach_all w = Ret tt w' ->
  only_handlers w w'
  /\ forall p, prop_handlers (props w' p) = detached w p
               /\ forall h, property2ChangedHandle (db w) !! p = Some h ->
                    (h < length (prop_handlers (props w p)))%nat.
Proof.
  intros Hrun. split.
  { pose proof (detach_all_only_handlers w) as H. now rewrite Hrun in H. }
  unfold detach_all in Hrun. rewrite (bind_Ret get_world _ w w w eq_refl) in Hrun.
  intros p.
  destruct (detach_list _ (NoDup_fst_map_to_list _) _ _ Hrun p) as [Hin Hout].
  unfold detached.
  destruct (property2ChangedHandle (db w) !! p) as [h|] eqn:Hp.
  - apply elem_of_map_to_list in Hp. destruct (Hin h Hp) as [Hlt ->].
    split; [reflexivity|]. now intros h' [= <-].
  - split; [|discriminate]. apply Hout. intros Hel.
    apply list_elem_of_fmap in Hel as ([q h] & -> & Hel).
    apply elem_of_map_to_list in Hel. cbn in *. congruence.
Qed.

Lemma registered_nil w : registered [] w w.
Proof.
  unfold registered, handlers_for, register_all. cbn.
  repeat split; try reflexivity. intros p. now rewrite app_nil_r.
Qed.

Lemma registered_app r1 r2 w w1 w2 :
  registered r1 w w1 -> registered r2 w1 w2 -> registered (r1 ++ r2) w w2.
Proof.
  intros (Hso1 & Hh1 & Ht1 & Hv1 & Hd1 & Hb1 & Hl1 & He1 & Hw1 & Hn1)
         (Hso2 & Hh2 & Ht2 & Hv2 & Hd2 & Hb2 & Hl2 & He2 & Hw2 & Hn2).
  split; [eapply same_objects_trans; eauto|].
  split; [congruence|]. split; [congruence|].
  split; [intros p; now rewrite Hv2|].
  split; [congruence|]. split; [congruence|]. split; [congruence|].
  split; [congruence|]. split.
  - rewrite Hw2, Hw1. unfold register_all. now rewrite foldl_app.
  - intros p. rewrite Hn2, Hn1. unfold handlers_for.
    now rewrite filter_app, map_app, app_assoc.
Qed.

Lemma handlers_for_one p prop widget :
  handlers_for p [(prop, widget)]
  = if decide (prop = p) then [Some (MkHandler p widget)] else [].
Proof.
  unfold handlers_for. rewrite filter_cons, filter_nil. cbn [fst].
  now destruct (decide (prop = p)).
Qed.

Lemma bind_property_registers widget prop w :
  exists w', bind_property widget prop w = Ret tt w'
    /\ registered (if decide (has_string_source w prop) then [(prop, widget)] else [])
         w w'.
Proof.
  unfold bind_property, has_string_source. munfold.
  destruct (as_string (prop_source (props w prop))) as [s|] eqn:Hs.
  - eexists. split; [reflexivity|]. rewrite decide_True by eauto.
    unfold registered, event_Attach. cbn -[handlers_for].
    split; [apply with_handlers_same_objects|].
    split; [reflexivity|]. split; [reflexivity|].
    split; [|repeat (split; [reflexivity|])].
    + intros p. rewrite update_prop_lookup. now destruct (decide (prop = p)) as [->|].
    + intros p. rewrite update_prop_lookup, handlers_for_one.
      destruct (decide (prop = p)) as [->|Hne]; cbn; [reflexivity|].
      now rewrite app_nil_r.
  - eexists. split; [reflexivity|]. rewrite decide_False.
    + apply registered_nil.
    + intros [? ?]. discriminate.
Qed.

Lemma bind_properties_register widget (ps : list (string * Property)) w :
  exists w',
    for_range ps (fun np => bind_property widget np.2) w = Ret tt w'
    /\ registered (map (fun p => (p, widget)) (filter (has_string_source w) ps.*2))
         w w'.
Proof.
  revert w. induction ps as [|[n p] ps IH]; intros w.
  - exists w. split; [reflexivity|apply registered_nil].
  - destruct (bind_property_registers widget p w) as (w1 & Hrun & Hreg).
    destruct (IH w1) as (w2 & Hrun2 & Hreg2).
    exists w2. cbn [for_range]. rewrite (bind_Ret _ _ _ _ _ Hrun).
    split; [exact Hrun2|].
    assert (Hso : same_objects w w1) by apply Hreg.
    rewrite (filter_has_string_source_same _ _ _ Hso) in Hreg2.
    rewrite fmap_cons, filter_cons. cbn [snd].
    destruct (decide (has_string_source w p)).
    + exact (registered_app [(p, widget)] _ _ _ _ Hreg Hreg2).
    + exact (registered_app [] _ _ _ _ Hreg Hreg2).
Qed.

Lemma widget_registrations_same w w' widget :
  same_objects w w' -> widget_registrations w' widget = widget_registrations w widget.
Proof.
  intros Hso. unfold widget_registrations.
  rewrite (filter_has_string_source_same _ _ _ Hso). do 2 f_equal.
  destruct widget as [i|]; [|reflexivity]. cbn. destruct Hso as [Hw _].
  now rewrite Hw.
Qed.

Lemma registrations_same w w' ws :
  same_objects w w' -> registrations w' ws = registrations w ws.
Proof.
  intros Hso. unfold registrations. f_equal. apply map_ext.
  intros widget. now apply widget_registrations_same.
Qed.

Lemma bind_widgets_register ws w w' :
  for_range ws bind_widget w = Ret tt w' ->
  registered (registrations w ws) w w' /\ Forall is_Some ws.
Proof.
  revert w. induction ws as [|widget ws IH]; intros w; cbn [for_range].
  - intros [= <-]. split; [apply registered_nil|constructor].
  - intros Hrun. apply bind_inv_Ret in Hrun as ([] & w1 & Hw & Hrest).
    unfold bind_widget in Hw. apply bind_inv_Ret in Hw as (n2p & w0 & Hn & Hps).
    unfold name2Property in Hn. destruct widget as [i|]; [|discriminate].
    injection Hn as <- <-.
    destruct (bind_properties_register (Some i) (widgets w i) w)
      as (w1' & Hrun1 & Hreg).
    rewrite Hps in Hrun1. injection Hrun1 as <-.
    destruct (IH _ Hrest) as [Hreg2 Hall].
    split; [|constructor; eauto].
    assert (Hso : same_objects w w1) by apply Hreg.
    rewrite (registrations_same _ _ _ Hso) in Hreg2.
    exact (registered_app _ _ _ _ _ Hreg Hreg2).
Qed.

(** What a call of [SetBoundWidgets] that returns has done. *)
Lemma SetBoundWidgets_run ws w w' :
  SetBoundWidgets ws w = Ret tt w' ->
  let regs := registrations w ws in
  same_objects w w' /\ heap w' = heap w /\ trace w' = trace w
  /\ (forall p, prop_value (props w' p) = prop_value (props w p))
  /\ dataSource (db w') = dataSource (db w)
  /\ boundWidgets (db w') = ws
  /\ widget2Property2Error (db w') = Some ∅
  /\ errorPresenter (db w') = errorPresenter (db w)
  /\ property2Widget (db w') = register_all regs ∅
  /\ (forall p, prop_handlers (props w' p)
                = (detached w p ++ handlers_for p regs)%list)
  /\ (forall p h, property2ChangedHandle (db w) !! p = Some h ->
        (h < length (prop_handlers (props w p)))%nat)
  /\ Forall is_Some ws.
Proof.
  intros Hrun regs. unfold SetBoundWidgets in Hrun.
  apply bind_inv_Ret in Hrun as ([] & w1 & Hdet & Hrun).
  apply bind_inv_Ret in Hrun as ([] & w2 & Hmod & Hrun).
  injection Hmod as <-.
  apply detach_all_run in Hdet as [(Hso1 & Hh1 & Ht1 & Hdb1 & Hv1) Hdet].
  apply bind_widgets_register in Hrun
    as [(Hso & Hh & Ht & Hv & Hd & Hb & Hl & He & Hw & Hn) Hall].
  assert (Hso2 : same_objects w (set_db (set_session ws (db w1)) w1)) by exact Hso1.
  rewrite (registrations_same _ _ _ Hso2) in Hw, Hn. fold regs in Hw, Hn.
  cbn in Hh, Ht, Hv, Hd, Hb, Hl, He, Hw, Hn.
  split; [eapply same_objects_trans; eauto|].
  split; [congruence|]. split; [congruence|].
  split; [intros p; now rewrite Hv|].
  split; [congruence|]. split; [congruence|]. split; [congruence|].
  split; [congruence|]. split; [congruence|].
  split; [|split; [|exact Hall]].
  - intros p. rewrite Hn. f_equal. apply Hdet.
  - intros p h. apply Hdet.
Qed.

Lemma register_all_lookup regs (m : gmap Property Widget) p :
  register_all regs m !! p =
  match last (filter (fun r => r.1 = p) regs) with
  | Some r => Some r.2
  | None => m !! p
  end.
Proof.
  induction regs as [|r regs IH] using rev_ind; [reflexivity|].
  unfold register_all in *. rewrite foldl_app, filter_app. cbn [foldl].
  rewrite filter_cons, filter_nil.
  destruct (decide (r.1 = p)) as [<-|Hne].
  - now rewrite lookup_insert_eq, last_snoc.
  - rewrite lookup_insert_ne by done. now rewrite app_nil_r.
Qed.

(** X6.  Beginning a session validates nothing: a call of
    [SetBoundWidgets] that returns leaves the binder eligible for
    [Submit], whatever the properties hold and whatever errors were
    recorded before; it reads and sets no property, presents and publishes
    nothing and leaves the data source alone.  The widgets are recorded,
    and each registered property belongs to the last of the given widgets
    that declares it. *)
Theorem SetBoundWidgets_validates_nothing ws w w' :
  SetBoundWidgets ws w = Ret tt w' ->
  CanSubmit (db w') = true
  /\ trace w' = trace w /\ heap w' = heap w
  /\ (forall p, prop_value (props w' p) = prop_value (props w p))
  /\ boundWidgets (db w') = ws
  /\ dataSource (db w') = dataSource (db w)
  /\ forall p, property2Widget (db w') !! p
               = snd <$> last (registrations_of w ws p).
Proof.
  intros Hrun.
  destruct (SetBoundWidgets_run _ _ _ Hrun)
    as (_ & Hh & Ht & Hv & Hd & Hb & Hl & _ & Hw & _).
  split; [unfold CanSubmit; now rewrite (ledger_empty_Some ∅ _ Hl)|].
  repeat (split; [assumption|]).
  intros p. rewrite Hw, register_all_lookup. unfold registrations_of.
  destruct (last _); [reflexivity|apply lookup_empty].
Qed.

Lemma SetBoundWidgets_validates_nothing_witness :
  let w := Sample.invalid in
  let ws := [Some 0%nat] in
  let w' := final_world (SetBoundWidgets ws w) in
  CanSubmit (db w') = true
  /\ trace w' = trace w /\ heap w' = heap w
  /\ (forall p, prop_value (props w' p) = prop_value (props w p))
  /\ boundWidgets (db w') = ws
  /\ dataSource (db w') = dataSource (db w)
  /\ forall p, property2Widget (db w') !! p
               = snd <$> last (registrations_of w ws p).
Proof.
  apply (SetBoundWidgets_validates_nothing [Some 0%nat] Sample.invalid).
  vm_compute. reflexivity.
Defined.

(** X7.  Beginning a session ends the one before: after a call of
    [SetBoundWidgets] that returns, the handler behind every handle the
    binder held is detached. *)
Theorem SetBoundWidgets_detaches_the_previous_session ws w w' :
  SetBoundWidgets ws w = Ret tt w' ->
  forall p h, property2ChangedHandle (db w) !! p = Some h ->
    prop_handlers (props w' p) !! h = Some None.
Proof.
  intros Hrun p h Hp.
  destruct (SetBoundWidgets_run _ _ _ Hrun)
    as (_ & _ & _ & _ & _ & _ & _ & _ & _ & Hn & Hlt & _).
  specialize (Hlt p h Hp). rewrite Hn. unfold detached. rewrite Hp.
  rewrite lookup_app_l by now rewrite length_insert.
  now apply list_lookup_insert_eq.
Qed.

Lemma SetBoundWidgets_detaches_the_previous_session_witness :
  let w := Sample.bound 30 Sample.person_ptr [Some 0%nat] in
  let w' := final_world (SetBoundWidgets [Some 1%nat] w) in
  prop_handlers (props w' 1%nat) !! 0%nat = Some None.
Proof.
  apply (SetBoundWidgets_detaches_the_previous_session [Some 1%nat]
           (Sample.bound 30 Sample.person_ptr [Some 0%nat])
           (final_world (SetBoundWidgets [Some 1%nat]
                           (Sample.bound 30 Sample.person_ptr [Some 0%nat])))
           ltac:(vm_compute; reflexivity) 1%nat 0%nat).
  vm_compute. reflexivity.
Defined.

Lemma for_range_detached (l : list (option Handler)) body w :
  Forall (eq None) l ->
  for_range l (fun h : option Handler =>
                 match h with None => ret tt | Some h => body h end) w
  = Ret tt w.
Proof.
  induction 1 as [|h l <- _ IH]; cbn [for_range]; [reflexivity|exact IH].
Qed.

(** X8.  A change of a property runs one validation for each of its
    registrations in the session: when every other handler of the property
    is detached, publishing its [Changed()] event after a call of
    [SetBoundWidgets] that returned validates the property once for every
    widget that registered it, in the order of registration -- not at all
    when the session does not have the property, twice when it has it
    twice. *)
Theorem a_change_validates_each_registration ws w w' p :
  SetBoundWidgets ws w = Ret tt w' ->
  Forall (eq None) (detached w p) ->
  publish_Changed p w'
  = for_range (registrations_of w ws p) (fun r => validateProperty p r.2) w'.
Proof.
  intros Hrun Hnone.
  destruct (SetBoundWidgets_run _ _ _ Hrun)
    as (_ & _ & _ & _ & _ & _ & _ & _ & _ & Hn & _).
  unfold publish_Changed. rewrite (bind_Ret get_world _ w' w' w' eq_refl).
  rewrite Hn, for_range_app.
  rewrite (bind_Ret _ _ w' tt w'
             (for_range_detached _ (fun h => validateProperty (h_prop h) (h_widget h))
                w' Hnone)).
  unfold handlers_for, registrations_of. now rewrite for_range_map.
Qed.

Lemma a_change_validates_each_registration_witness :
  let w := Sample.bound 30 Sample.person_ptr [Some 4%nat] in
  let ws := [Some 4%nat; Some 4%nat] in
  let w' := final_world (SetBoundWidgets ws w) in
  publish_Changed 5%nat w'
  = for_range (registrations_of w ws 5%nat)
      (fun r => validateProperty 5%nat r.2) w'.
Proof.
  apply (a_change_validates_each_registration [Some 4%nat; Some 4%nat]
           (Sample.bound 30 Sample.person_ptr [Some 4%nat])).
  - vm_compute. reflexivity.
  - vm_compute. repeat constructor.
Defined.

(** ** What a traversal adds to the trace *)

Section Adds.
Variable P : Event -> bool.
Hypothesis P_get : forall p, P (EGet p) = true.
Hypothesis P_set : forall p v, P (ESet p v) = true.
Hypothesis P_validate : forall p v, P (EValidate p v) = true.
Hypothesis P_present : forall e wd, P (EPresent e wd) = true.
Hypothesis P_publish : P EPublish = true.
Hypothesis P_read : forall l n, P (EFieldRead l n) = true.
Hypothesis P_write : forall l n v, P (EFieldWrite l n v) = true.

Lemma adds_refl w : adds P w w.
Proof. exists []. now rewrite app_nil_r. Qed.

Lemma adds_trans w1 w2 w3 : adds P w1 w2 -> adds P w2 w3 -> adds P w1 w3.
Proof.
  intros (t1 & H1 & Hp1) (t2 & H2 & Hp2). exists (t1 ++ t2)%list.
  rewrite H2, H1, app_assoc, forallb_app, Hp1, Hp2. now split.
Qed.

Lemma adds_emit e w : P e = true -> adds P w (emit e w).
Proof. intros He. exists [e]. cbn. now rewrite He. Qed.

Lemma adds_same_trace w w' : trace w' = trace w -> adds P w w'.
Proof. intros H. exists []. now rewrite app_nil_r. Qed.

Lemma adds_modify_emit e : P e = true -> respects (adds P) (modify (emit e)).
Proof. intros He w. now apply adds_emit. Qed.

Lemma adds_prop_Get p : respects (adds P) (prop_Get p).
Proof. intros w. apply adds_emit, P_get. Qed.

Lemma adds_ledger_store widget m : respects (adds P) (ledger_store widget m).
Proof.
  intros w. unfold ledger_store.
  destruct (widget2Property2Error (db w)); now apply adds_same_trace.
Qed.

Lemma adds_ledger_delete widget : respects (adds P) (ledger_delete widget).
Proof.
  intros w. unfold ledger_delete, modify. cbn.
  destruct (widget2Property2Error (db w)); now apply adds_same_trace.
Qed.

Lemma adds_present_and_publish err widget changed :
  respects (adds P) (present_and_publish err widget changed).
Proof.
  pose proof adds_refl. pose proof adds_trans.
  pose proof (adds_modify_emit (EPresent err widget) (P_present _ _)).
  pose proof (adds_modify_emit EPublish P_publish).
  unfold present_and_publish. respects.
Qed.

Lemma adds_validateProperty prop widget :
  respects (adds P) (validateProperty prop widget).
Proof.
  pose proof adds_refl. pose proof adds_trans. pose proof adds_prop_Get.
  pose proof adds_ledger_store. pose proof adds_ledger_delete.
  pose proof adds_present_and_publish.
  assert (forall v, respects (adds P) (modify (emit (EValidate prop v))))
    by (intros v; apply adds_modify_emit, P_validate).
  unfold validateProperty. respects.
Qed.

Lemma adds_publish_Changed p : respects (adds P) (publish_Changed p).
Proof.
  apply respects_publish_Changed.
  - apply adds_refl.
  - apply adds_trans.
  - apply adds_validateProperty.
Qed.

Lemma adds_prop_Set p v : respects (adds P) (prop_Set p v).
Proof.
  pose proof adds_refl. pose proof adds_trans. pose proof adds_publish_Changed.
  pose proof (adds_modify_emit (ESet p v) (P_set _ _)).
  assert (forall x, respects (adds P) (modify (update_prop p (with_value x))))
    by (intros x w; now apply adds_same_trace).
  unfold prop_Set. respects.
Qed.

Lemma adds_rv_Interface r : respects (adds P) (rv_Interface r).
Proof.
  pose proof adds_refl. pose proof adds_trans.
  pose proof (respects_rv_current (adds P) adds_refl).
  assert (forall l n, respects (adds P) (modify (emit (EFieldRead l n))))
    by (intros l n; apply adds_modify_emit, P_read).
  unfold rv_Interface. respects.
Qed.

Lemma adds_reset_field prop field : respects (adds P) (reset_field prop field).
Proof.
  pose proof adds_refl. pose proof adds_trans.
  pose proof adds_prop_Get. pose proof adds_rv_Interface.
  pose proof adds_prop_Set.
  pose proof (respects_prop_Source_string (adds P) adds_refl).
  pose proof (respects_rv_TypeName (adds P) adds_refl adds_trans).
  pose proof (respects_reset_validate (adds P) adds_refl adds_trans
                adds_validateProperty).
  unfold reset_field. respects.
Qed.

Lemma adds_Reset : respects (adds P) Reset.
Proof.
  apply respects_forEach.
  - apply adds_refl.
  - apply adds_trans.
  - apply adds_reset_field.
Qed.

Lemma adds_write_field l name v : respects (adds P) (write_field l name v).
Proof. intros w. exists [EFieldWrite l name v]. cbn. now rewrite P_write. Qed.

Lemma adds_submit_field pf prop field :
  respects (adds P) (submit_field pf prop field).
Proof.
  pose proof adds_refl. pose proof adds_trans. pose proof adds_prop_Get.
  pose proof (respects_rv_current (adds P) adds_refl).
  pose proof (respects_rv_Kind (adds P) adds_refl adds_trans).
  pose proof (respects_prop_Source_string (adds P) adds_refl).
  pose proof (respects_rv_TypeName (adds P) adds_refl adds_trans).
  pose proof adds_write_field.
  unfold submit_field, rv_SetFloat, rv_SetInt, rv_SetUint, rv_Set. respects.
Qed.

Lemma adds_Submit pf : respects (adds P) (Submit pf).
Proof.
  pose proof adds_refl. pose proof adds_trans.
  unfold Submit. apply respects_bind; [auto|respects|]. intros w.
  destruct (negb _); [respects|].
  apply respects_forEach; [auto|auto|apply adds_submit_field].
Qed.
End Adds.

(** X9.  [Reset] never writes the data source: whether it returns, fails
    or panics, the records of the model, the data source, the registered
    properties and their widgets are what they were, and nothing [Reset]
    causes is a write to a field.  (The setters and validators of the
    properties act on the properties only.) *)
Theorem Reset_never_writes_the_model w :
  let w' := final_world (Reset w) in
  reset_frame w w' /\ adds reset_event w w'.
Proof.
  split.
  - apply (respects_Reset reset_frame (fun _ => True)).
    + apply reset_frame_refl.
    + apply reset_frame_trans.
    + intros e w0 _. apply reset_frame_emit.
    + apply validateProperty_reset_frame.
    + intros p v x w0 _. apply reset_frame_set.
    + exact (fun _ => I).
  - now apply adds_Reset.
Qed.

Lemma submit_frame_refl w : submit_frame w w.
Proof. now repeat split. Qed.

Lemma submit_frame_trans w1 w2 w3 :
  submit_frame w1 w2 -> submit_frame w2 w3 -> submit_frame w1 w3.
Proof.
  unfold submit_frame. intros (? & ? & ?) (? & ? & ?).
  repeat split; congruence.
Qed.

(** X10.  [Submit] goes one way only: whether it returns, fails or panics,
    it changes no property, no widget and nothing of the binder (the ledger
    stays as it is), and all it causes is reads of properties and writes
    to fields: no [Set], no validation, no presentation of an error, no
    eligibility notification. *)
Theorem Submit_only_reads_properties pf w :
  let w' := final_world (Submit pf w) in
  submit_frame w w' /\ adds submit_event w w'.
Proof.
  split.
  - apply (respects_Submit submit_frame).
    + apply submit_frame_refl.
    + apply submit_frame_trans.
    + intros e w0 _. now repeat split.
    + intros h w0. now repeat split.
  - now apply adds_Submit.
Qed.

(** ** The order of a traversal *)

(** Over a given heap a walk either comes to the field of its last name,
    or stops on the way with an error or a panic that depend on nothing
    but the heap. *)
Lemma walk_names_cases h prop names p s :
  names <> [] ->
  (exists field tail, heap_read tail /\ reached h prop names p s field tail)
  \/ (exists out : error + string, forall f w, heap w = h ->
        walk_names f prop names p s w =
        match out with
        | inl err => Ret (Some err) w
        | inr msg => Panic msg w
        end).
Proof.
  revert p s. induction names as [|name rest IH]; [congruence|]. intros p s _.
  destruct (heap_read_rv_FieldByName s name h) as [[field|msg] Hfield].
  2:{ right. exists (inr msg). intros f w Hw. cbn [walk_names].
      now read_step Hfield w Hw. }
  destruct (rv_IsValid field) eqn:Hvalid.
  2:{ right. destruct (heap_read_rv_TypeName s h) as [[sname|msg] Hname].
      - eexists (inl _). intros f w Hw. cbn [walk_names].
        read_step Hfield w Hw. rewrite Hvalid. cbn [negb].
        read_step Hname w Hw. reflexivity.
      - exists (inr msg). intros f w Hw. cbn [walk_names].
        read_step Hfield w Hw. rewrite Hvalid. cbn [negb].
        now read_step Hname w Hw. }
  destruct rest as [|name2 rest].
  - left. exists field, (last_checks p). split; [apply heap_read_last_checks|].
    intros f w Hw. cbn [walk_names].
    read_step Hfield w Hw. rewrite Hvalid. cbn [negb].
    unfold last_checks, after_field, bind, ret.
    destruct (f prop field w) as [[err|] w1|msg w1]; reflexivity.
  - destruct (heap_read_rv_Kind p h) as [[k|msg] Hk].
    2:{ right. exists (inr msg). intros f w Hw. cbn [walk_names].
        read_step Hfield w Hw. rewrite Hvalid. cbn [negb].
        unfold bind at 1. unfold bind at 1. now rewrite (Hk w Hw). }
    destruct (decide (k = KPtr)) as [->|Hk'].
    2:{ right. eexists (inl _). intros f w Hw. cbn [walk_names].
        read_step Hfield w Hw. rewrite Hvalid. cbn [negb].
        unfold bind at 1. unfold bind at 1. rewrite (Hk w Hw).
        rewrite decide_False by done. reflexivity. }
    assert (Hstep : forall (f : Property -> RValue -> M (option error)) w,
               heap w = h ->
               walk_names f prop (name :: name2 :: rest) p s w =
               (let* isnil := rv_IsNil field in
                if isnil then ret (Some (newError "Pointer must not be nil."))
                else
                  let* s' := rv_Indirect field in
                  let* k := rv_Kind s' in
                  if decide (k = KStruct)
                  then walk_names f prop (name2 :: rest) field s'
                  else ret (Some (newError "Pointer must point to a struct."))) w).
    { intros f w Hw. cbn [walk_names].
      read_step Hfield w Hw. rewrite Hvalid. cbn [negb].
      unfold bind at 1. unfold bind at 1. rewrite (Hk w Hw).
      rewrite decide_True by done. reflexivity. }
    destruct (heap_read_rv_IsNil field h) as [[isnil|msg] Hnil].
    2:{ right. exists (inr msg). intros f w Hw. rewrite (Hstep f w Hw).
        now read_step Hnil w Hw. }
    destruct isnil.
    { right. eexists (inl _). intros f w Hw. rewrite (Hstep f w Hw).
      read_step Hnil w Hw. reflexivity. }
    destruct (heap_read_rv_Indirect field h) as [[s'|msg] Hind].
    2:{ right. exists (inr msg). intros f w Hw. rewrite (Hstep f w Hw).
        read_step Hnil w Hw.
        now read_step Hind w Hw. }
    destruct (heap_read_rv_Kind s' h) as [[ks|msg] Hks].
    2:{ right. exists (inr msg). intros f w Hw. rewrite (Hstep f w Hw).
        read_step Hnil w Hw.
        read_step Hind w Hw.
        now read_step Hks w Hw. }
    assert (Hstep2 : forall (f : Property -> RValue -> M (option error)) w,
               heap w = h ->
               walk_names f prop (name :: name2 :: rest) p s w =
               if decide (ks = KStruct)
               then walk_names f prop (name2 :: rest) field s' w
               else Ret (Some (newError "Pointer must point to a struct.")) w).
    { intros f w Hw. rewrite (Hstep f w Hw).
      read_step Hnil w Hw.
      read_step Hind w Hw.
      read_step Hks w Hw. now destruct (decide _). }
    destruct (decide (ks = KStruct)) as [->|Hns].
    2:{ right. eexists (inl _). intros f w Hw. rewrite (Hstep2 f w Hw).
        reflexivity. }
    destruct (IH field s' ltac:(discriminate))
      as [(field' & tail & Htail & Hreached)|[out Hstop]].
    + left. exists field', tail. split; [exact Htail|].
      intros f w Hw. rewrite (Hstep2 f w Hw). now apply Hreached.
    + right. exists out. intros f w Hw. rewrite (Hstep2 f w Hw). now apply Hstop.
Qed.

Section Visits.
Variable tg : Event -> option Property.
Variable f : Property -> RValue -> M (option error).
Hypothesis f_visits : forall prop field w, visited tg prop w (f prop field w).

Lemma visited_stop prop w (o : Outcome (option error)) :
  final_world o = w -> (forall w', o <> Ret None w') -> visited tg prop w o.
Proof.
  intros Hw Hno. exists []. rewrite Hw, app_nil_r. split; [reflexivity|].
  right. now split.
Qed.

Lemma turn_visits root s prop w : visited tg prop w (turn f root s prop w).
Proof.
  unfold turn, bind, prop_Source_string.
  destruct (as_string (prop_source (props w prop))) as [path|];
    [|now apply visited_stop].
  destruct (walk_names_cases (heap w) prop (split_dots path) root s
              (split_dots_nonempty path))
    as [(field & tail & Htail & Hreached)|[out Hstop]].
  - rewrite (Hreached f w eq_refl). unfold bind.
    destruct (f_visits prop field w) as (t & Ht & Hcase).
    destruct (f prop field w) as [[err|] w1|msg w1]; cbn in *.
    + exists t. split; [exact Ht|]. destruct Hcase as [?|[? _]]; [now left|].
      right. now split.
    + exists t. rewrite (heap_read_world tail w1 Htail). split; [exact Ht|].
      destruct Hcase as [?|[_ Hno]]; [now left|]. now destruct (Hno w1).
    + exists t. split; [exact Ht|]. destruct Hcase as [?|[? _]]; [now left|].
      right. now split.
  - rewrite (Hstop f w eq_refl). apply visited_stop; now destruct out.
Qed.

Lemma loop_visits root s l w :
  visited_in_order tg l w (for_range_err l (turn f root s) w).
Proof.
  revert w. induction l as [|x l IH]; intros w; cbn [for_range_err].
  - exists []. rewrite app_nil_r. now repeat split.
  - unfold bind. destruct (turn_visits root s x w) as (t1 & Ht1 & Hcase).
    destruct (turn f root s x w) as [[err|] w1|msg w1]; cbn in *.
    + exists t1. split; [exact Ht1|]. split; [|discriminate].
      destruct Hcase as [->|[-> _]]; [now exists l|apply prefix_nil].
    + destruct Hcase as [Hx|[_ Hno]]; [|now destruct (Hno w1)].
      destruct (IH w1) as (t2 & Ht2 & Hpre & Hall).
      exists (t1 ++ t2)%list. rewrite Ht2, Ht1, app_assoc, omap_app, Hx.
      split; [reflexivity|]. split.
      * now apply (prefix_app [x]).
      * intros w' Hret. cbn. f_equal. now apply (Hall w').
    + exists t1. split; [exact Ht1|]. split; [|discriminate].
      destruct Hcase as [->|[-> _]]; [now exists l|apply prefix_nil].
Qed.

Lemma forEach_visits w :
  exists t, trace (final_world (forEach f w)) = (trace w ++ t)%list
    /\ omap tg t `prefix_of` properties (db w)
    /\ forall w', forEach f w = Ret None w' ->
         (forall ty, dataSource (db w) <> Some (VPtr ty None)) ->
         omap tg t = properties (db w).
Proof.
  assert (Hfront : exists t, trace (final_world (forEach f w)) = (trace w ++ t)%list
                             /\ omap tg t `prefix_of` properties (db w)).
  { destruct (forEach_split (heap w) (dataSource (db w))) as [[s Hloop]|Hstop].
    - rewrite (Hloop f w eq_refl eq_refl).
      destruct (loop_visits (reflect_ValueOf (dataSource (db w))) s
                  (properties (db w)) w) as (t & Ht & Hpre & _).
      now exists t.
    - exists []. rewrite app_nil_r. split; [|apply prefix_nil].
      destruct (Hstop f w eq_refl eq_refl) as [e [->|[msg ->]]]; reflexivity. }
  destruct Hfront as (t & Ht & Hpre). exists t. split; [exact Ht|].
  split; [exact Hpre|]. intros w' Hret Hnonnil.
  destruct (forEach_inv f w w' Hret) as [(ty & Hnil & _)|(s & _ & Hloop)];
    [now destruct (Hnonnil ty)|].
  destruct (loop_visits (reflect_ValueOf (dataSource (db w))) s
              (properties (db w)) w) as (t' & Ht' & _ & Hall).
  unfold turn in Ht', Hall. rewrite Hloop in Ht', Hall.
  rewrite Hret in Ht. cbn in Ht, Ht'. rewrite Ht in Ht'.
  apply app_inv_head in Ht'. subst t'. now apply (Hall w').
Qed.
End Visits.

Lemma adds_unseen (P : Event -> bool) (tg : Event -> option Property) w w' :
  (forall e, P e = true -> tg e = None) -> adds P w w' -> unseen tg w w'.
Proof.
  intros HP (t & Ht & Hall). exists t. split; [exact Ht|].
  clear Ht. induction t as [|e t IH]; [reflexivity|].
  cbn in Hall. apply andb_true_iff in Hall as [He Hall].
  cbn. rewrite (HP e He). now apply IH.
Qed.

Section VisitSteps.
Variable tg : Event -> option Property.
Variable prop : Property.

(** Steps that do not count, then a visit. *)
Lemma visited_after {A} (m : M A) (k : A -> M (option error)) w :
  unseen tg w (final_world (m w)) ->
  (forall a w1, m w = Ret a w1 -> visited tg prop w1 (k a w1)) ->
  visited tg prop w (bind m k w).
Proof.
  intros (t0 & Ht0 & Hq) Hk. unfold bind.
  destruct (m w) as [a w1|msg w1]; cbn in Ht0.
  - destruct (Hk a w1 eq_refl) as (t & Ht & Hcase).
    exists (t0 ++ t)%list. rewrite Ht, Ht0, app_assoc, omap_app, Hq.
    split; [reflexivity|exact Hcase].
  - exists t0. split; [exact Ht0|]. right. now split.
Qed.

(** The visit, then steps that do not count. *)
Lemma visited_before {A} (m : M A) (k : A -> M (option error)) w :
  (exists t, trace (final_world (m w)) = (trace w ++ t)%list
             /\ omap tg t = [prop]) ->
  (forall a, respects (unseen tg) (k a)) ->
  visited tg prop w (bind m k w).
Proof.
  intros (t1 & Ht1 & Hx) Hk. unfold bind.
  destruct (m w) as [a w1|msg w1]; cbn in Ht1.
  - destruct (Hk a w1) as (t & Ht & Hq).
    exists (t1 ++ t)%list. rewrite Ht, Ht1, app_assoc, omap_app, Hx, Hq.
    split; [reflexivity|now left].
  - exists t1. split; [exact Ht1|now left].
Qed.
End VisitSteps.

Lemma no_set_unseen e : no_set e = true -> set_target e = None.
Proof. now destruct e. Qed.

Lemma is_write_unseen e : is_write e = true -> get_target e = None.
Proof. now destruct e. Qed.

Lemma prop_Set_sets p v w :
  exists t, trace (final_world (prop_Set p v w)) = (trace w ++ t)%list
            /\ omap set_target t = [p].
Proof.
  unfold prop_Set, bind, get_world, modify, ret. cbn.
  set (w1 := update_prop p _ _).
  assert (Ht1 : trace w1 = (trace w ++ [ESet p v])%list) by reflexivity.
  destruct (set_changed _).
  - assert (Hq : unseen set_target w1 (final_world (publish_Changed p w1))).
    { apply (adds_unseen no_set); [apply no_set_unseen|].
      now apply adds_publish_Changed. }
    destruct Hq as (t & Ht & Hq). exists (ESet p v :: t).
    split; [|cbn; now rewrite Hq].
    destruct (publish_Changed p w1) as [[] w2|msg w2]; cbn in *;
      now rewrite Ht, Ht1, <- app_assoc.
  - exists [ESet p v]. now split.
Qed.

Lemma reset_validate_unseen prop e :
  respects (unseen set_target) (reset_validate prop e).
Proof.
  intros w. apply (adds_unseen no_set); [apply no_set_unseen|].
  apply (respects_reset_validate (adds no_set)).
  - apply adds_refl.
  - apply adds_trans.
  - now apply adds_validateProperty.
Qed.

Lemma rv_Interface_unseen field w :
  unseen set_target w (final_world (rv_Interface field w)).
Proof.
  apply (adds_unseen no_set); [apply no_set_unseen|].
  now apply adds_rv_Interface.
Qed.

Lemma reset_field_visits prop field w :
  visited set_target prop w (reset_field prop field w).
Proof.
  unfold reset_field. apply visited_after.
  { exists [EGet prop]. now split. }
  intros cur w1 _. destruct (as_float64 cur).
  - rewrite bind_assoc. apply visited_after; [apply rv_Interface_unseen|].
    intros fv w2 _. destruct (to_float64 fv) as [f64|].
    + apply visited_before; [apply prop_Set_sets|apply reset_validate_unseen].
    + unfold bind, prop_Source_string, ret.
      destruct (as_string _); [|now apply visited_stop].
      destruct (heap_read_rv_TypeName field (heap w2)) as [[tname|msg] Hname];
        rewrite (Hname w2 eq_refl); now apply visited_stop.
  - rewrite bind_assoc. apply visited_after; [apply rv_Interface_unseen|].
    intros fv w2 _.
    apply visited_before; [apply prop_Set_sets|apply reset_validate_unseen].
Qed.

Lemma new_events_app w w' t :
  trace w' = (trace w ++ t)%list -> new_events w w' = t.
Proof. intros Ht. unfold new_events. rewrite Ht. apply drop_app_length. Qed.

(** X11.  [Reset] calls [Set] on registered properties only, in the order
    of registration and once for each entry of the list it comes to,
    whether it returns, fails or panics; when it returns without an error,
    and the data source is no nil pointer, it has called [Set] once for
    every entry of the list. *)
Theorem Reset_sets_in_registration_order w :
  let w' := final_world (Reset w) in
  set_targets (new_events w w') `prefix_of` properties (db w)
  /\ (Reset w = Ret None w' ->
      (forall ty, dataSource (db w) <> Some (VPtr ty None)) ->
      set_targets (new_events w w') = properties (db w)).
Proof.
  destruct (forEach_visits set_target reset_field reset_field_visits w)
    as (t & Ht & Hpre & Hall).
  cbv zeta. fold Reset in Ht, Hall.
  rewrite (new_events_app _ _ _ Ht). split; [exact Hpre|].
  intros Hret. now apply (Hall (final_world (Reset w))).
Qed.

Lemma submit_field_visits pf prop field w :
  visited get_target prop w (submit_field pf prop field w).
Proof.
  unfold submit_field. apply visited_before.
  { exists [EGet prop]. now split. }
  intros value w1. apply (adds_unseen is_write); [apply is_write_unseen|].
  pose proof (adds_refl is_write). pose proof (adds_trans is_write).
  pose proof (respects_rv_current (adds is_write) (adds_refl is_write)).
  pose proof (respects_rv_Kind (adds is_write) (adds_refl is_write)
                (adds_trans is_write)).
  pose proof (respects_prop_Source_string (adds is_write) (adds_refl is_write)).
  pose proof (respects_rv_TypeName (adds is_write) (adds_refl is_write)
                (adds_trans is_write)).
  pose proof (adds_write_field is_write (fun _ _ _ => eq_refl)).
  revert w1. change (respects (adds is_write)
    match value with
    | Some (VError err) => ret (Some err)
    | Some (VFloat KFloat64 TBasic f64) =>
      let* k := rv_Kind field in
      match k with
      | KFloat _ => run rv_SetFloat field f64 in ret None
      | KNum ik =>
        run (if int_signed ik then rv_SetInt pf field (int64_of_float pf f64)
             else rv_SetUint pf field (uint64_of_float pf f64)) in
        ret None
      | _ =>
        let* src := prop_Source_string prop in
        let* tname := rv_TypeName field in
        ret (Some (newError ("Field '" ++ src ++ "': Can't convert float64 to " ++ tname ++ ".")))
      end
    | Some v => run rv_Set field v in ret None
    | None => ret None
    end).
  unfold rv_SetFloat, rv_SetInt, rv_SetUint, rv_Set. respects.
Qed.

(** X12.  [Submit] reads registered properties only, in the order of
    registration and once for each entry of the list it comes to, whether
    it returns, fails or panics; when it returns without an error, and the
    data source is no nil pointer, it has read every entry of the list
    once. *)
Theorem Submit_reads_in_registration_order pf w :
  let w' := final_world (Submit pf w) in
  get_targets (new_events w w') `prefix_of` properties (db w)
  /\ (Submit pf w = Ret None w' ->
      (forall ty, dataSource (db w) <> Some (VPtr ty None)) ->
      get_targets (new_events w w') = properties (db w)).
Proof.
  rewrite Submit_unfold. destruct (CanSubmit (db w)).
  - destruct (forEach_visits get_target (submit_field pf)
                (submit_field_visits pf) w) as (t & Ht & Hpre & Hall).
    cbv zeta. rewrite (new_events_app _ _ _ Ht). split; [exact Hpre|].
    intros Hret. now apply (Hall (final_world (forEach (submit_field pf) w))).
  - cbn. unfold new_events. rewrite drop_all. split; [apply prefix_nil|].
    discriminate.
Qed.

(** ** Malformed shapes that are reported *)

Lemma rv_current_PNone v w : rv_current (RV v PNone) w = Ret (RV v PNone) w.
Proof. reflexivity. Qed.

Lemma forEach_root_error f w v :
  dataSource (db w) = Some v ->
  (value_kind v <> KPtr
   \/ exists t l x, v = VPtr t (Some l) /\ heap w !! l = Some x
                    /\ value_kind x <> KStruct) ->
  forEach f w = Ret (Some root_error) w.
Proof.
  intros Hds Hcase. unfold forEach, bind, get_world. rewrite Hds.
  destruct Hcase as [Hk|(t & l & x & -> & Hl & Hk)].
  - cbn. now rewrite decide_False.
  - cbn -[lookup]. rewrite decide_True by reflexivity. rewrite Hl.
    cbn -[lookup]. rewrite Hl. cbn. now rewrite decide_False.
Qed.

(** X13.  A data source that is no pointer, or a pointer to something that
    is no struct, makes [Reset] and [Submit] return the error
    "DataSource must be a pointer to a struct." before any property is
    looked at: the world is left as it was.  ([Submit] checks the ledger
    first.) *)
Theorem data_source_must_point_to_a_struct pf w v :
  dataSource (db w) = Some v ->
  (value_kind v <> KPtr
   \/ exists t l x, v = VPtr t (Some l) /\ heap w !! l = Some x
                    /\ value_kind x <> KStruct) ->
  Reset w = Ret (Some root_error) w
  /\ Submit pf w =
     Ret (Some (if CanSubmit (db w) then root_error else ErrValidationFailed)) w.
Proof.
  intros Hds Hcase. split.
  - now apply forEach_root_error with v.
  - rewrite Submit_unfold. destruct (CanSubmit (db w)); [|reflexivity].
    now apply forEach_root_error with v.
Qed.

Lemma data_source_must_point_to_a_struct_witness :
  Reset Form.number_source = Ret (Some root_error) Form.number_source
  /\ Submit amd64 Form.number_source =
     Ret (Some (if CanSubmit (db Form.number_source) then root_error
                else ErrValidationFailed)) Form.number_source.
Proof.
  apply (data_source_must_point_to_a_struct amd64 Form.number_source
           (VInt KInt TBasic 5)).
  - vm_compute. reflexivity.
  - left. vm_compute. discriminate.
Defined.

(** Over a record the root checks pass, and [forEach] is its loop. *)
Lemma forEach_over_record f w t l st fields :
  dataSource (db w) = Some (VPtr t (Some l)) ->
  heap w !! l = Some (VStruct st fields) ->
  forEach f w =
  for_range_err (properties (db w))
    (turn f (RV (VPtr t (Some l)) PNone) (RV (VStruct st fields) (PHeap l))) w.
Proof.
  intros Hds Hl. unfold forEach.
  rewrite (bind_Ret get_world _ w w w eq_refl). rewrite Hds. cbn [reflect_ValueOf].
  rewrite (bind_Ret (rv_Kind (RV (VPtr t (Some l)) PNone)) _ w KPtr w eq_refl).
  rewrite decide_True by reflexivity.
  rewrite (bind_Ret (rv_IsNil (RV (VPtr t (Some l)) PNone)) _ w false w eq_refl).
  assert (Hind : rv_Indirect (RV (VPtr t (Some l)) PNone) w
                 = Ret (RV (VStruct st fields) (PHeap l)) w).
  { unfold rv_Indirect, bind. cbn -[lookup]. now rewrite Hl. }
  rewrite (bind_Ret _ _ w _ w Hind).
  assert (Hk : rv_Kind (RV (VStruct st fields) (PHeap l)) w = Ret KStruct w).
  { unfold rv_Kind, bind. cbn -[lookup]. now rewrite Hl. }
  rewrite (bind_Ret _ _ w _ w Hk).
  now rewrite decide_True by reflexivity.
Qed.

(** The first turn of [forEach] over a record. *)
Lemma forEach_first_turn f w t l st fields prop rest :
  dataSource (db w) = Some (VPtr t (Some l)) ->
  heap w !! l = Some (VStruct st fields) ->
  properties (db w) = prop :: rest ->
  forall e : error,
  turn f (RV (VPtr t (Some l)) PNone) (RV (VStruct st fields) (PHeap l)) prop w
  = Ret (Some e) w ->
  forEach f w = Ret (Some e) w.
Proof.
  intros Hds Hl Hps e Hturn. rewrite (forEach_over_record f w t l st fields Hds Hl).
  rewrite Hps. cbn [for_range_err]. unfold bind at 1. now rewrite Hturn.
Qed.

Lemma forEach_first_turn_panics f w t l st fields prop rest :
  dataSource (db w) = Some (VPtr t (Some l)) ->
  heap w !! l = Some (VStruct st fields) ->
  properties (db w) = prop :: rest ->
  forall msg,
  turn f (RV (VPtr t (Some l)) PNone) (RV (VStruct st fields) (PHeap l)) prop w
  = Panic msg w ->
  forEach f w = Panic msg w.
Proof.
  intros Hds Hl Hps e Hturn. rewrite (forEach_over_record f w t l st fields Hds Hl).
  rewrite Hps. cbn [for_range_err]. unfold bind at 1. now rewrite Hturn.
Qed.

Lemma prop_Source_string_Ret p w path :
  prop_source (props w p) = Some (VString TBasic path) ->
  prop_Source_string p w = Ret path w.
Proof. unfold prop_Source_string. now intros ->. Qed.

Lemma rv_current_field w l st fields name v v0 :
  heap w !! l = Some (VStruct st fields) ->
  lookup_field name fields = Some v ->
  rv_current (RV v0 (PField l name)) w = Ret (RV v (PField l name)) w.
Proof. intros Hl Hv. unfold rv_current, load. now rewrite Hl, Hv. Qed.

Lemma rv_current_record w l v v0 :
  heap w !! l = Some v -> rv_current (RV v0 (PHeap l)) w = Ret (RV v (PHeap l)) w.
Proof. intros Hl. unfold rv_current, load. now rewrite Hl. Qed.

Lemma rv_FieldByName_record w l st fields name :
  heap w !! l = Some (VStruct st fields) ->
  rv_FieldByName (RV (VStruct st fields) (PHeap l)) name w =
  Ret match lookup_field name fields with
      | None => RInvalid
      | Some v => RV v (PField l name)
      end w.
Proof.
  intros Hl. unfold rv_FieldByName.
  now rewrite (bind_Ret _ _ w _ w (rv_current_record w l _ _ Hl)).
Qed.




(** X15.  What a path through a field that is no pointer to a struct
    gives.  When a name of the path that is not its last names a field
    that is a nil pointer, a nil interface or a nil slice, map, channel or
    function, the traversal returns "Pointer must not be nil."; a field
    that is a non-nil interface, slice, map, channel or function gives
    "Pointer must point to a struct."; a field of a kind that cannot be
    nil -- a number, a string, a bool, a struct held by value -- makes the
    traversal panic in [IsNil].  In no case is the function the traversal
    carries called, and the world is left as it was. *)
Theorem path_through_a_field f w t l st fields prop rest path name name2 names v :
  dataSource (db w) = Some (VPtr t (Some l)) ->
  heap w !! l = Some (VStruct st fields) ->
  properties (db w) = prop :: rest ->
  prop_source (props w prop) = Some (VString TBasic path) ->
  split_dots path = name :: name2 :: names ->
  lookup_field name fields = Some v ->
  (nil_value v = true ->
     forEach f w = Ret (Some (newError "Pointer must not be nil.")) w)
  /\ (can_be_nil v = true -> nil_value v = false -> value_kind v <> KPtr ->
     forEach f w = Ret (Some (newError "Pointer must point to a struct.")) w)
  /\ (can_be_nil v = false -> exists msg, forEach f w = Panic msg w).
Proof.
  intros Hds Hl Hps Hsrc Hsplit Hv.
  assert (Hturn :
    turn f (RV (VPtr t (Some l)) PNone) (RV (VStruct st fields) (PHeap l)) prop w
    = (let* isnil := rv_IsNil (RV v (PField l name)) in
       if isnil then ret (Some (newError "Pointer must not be nil."))
       else
         let* s' := rv_Indirect (RV v (PField l name)) in
         let* k := rv_Kind s' in
         if decide (k = KStruct)
         then walk_names f prop (name2 :: names) (RV v (PField l name)) s'
         else ret (Some (newError "Pointer must point to a struct."))) w).
  { unfold turn. rewrite (bind_Ret _ _ w _ w (prop_Source_string_Ret _ _ _ Hsrc)).
    rewrite Hsplit. cbn [walk_names].
    rewrite (bind_Ret _ _ w _ w (rv_FieldByName_record w l st fields name Hl)).
    rewrite Hv. cbn [rv_IsValid negb].
    rewrite bind_assoc.
    rewrite (bind_Ret (rv_Kind (RV (VPtr t (Some l)) PNone)) _ w KPtr w eq_refl).
    rewrite decide_True by reflexivity. reflexivity. }
  assert (Hcur : rv_current (RV v (PField l name)) w = Ret (RV v (PField l name)) w).
  { now apply (rv_current_field w l st fields). }
  assert (HK : rv_Kind (RV v (PField l name)) w = Ret (value_kind v) w).
  { unfold rv_Kind. now rewrite (bind_Ret _ _ w _ w Hcur). }
  split; [|split].
  - intros Hnil.
    apply (forEach_first_turn f w t l st fields prop rest Hds Hl Hps).
    rewrite Hturn.
    assert (Hn : rv_IsNil (RV v (PField l name)) w = Ret true w).
    { unfold rv_IsNil. rewrite (bind_Ret _ _ w _ w Hcur).
      destruct v as [| | | | |? [?|]| |? ? []|[?|]]; try discriminate; reflexivity. }
    now rewrite (bind_Ret _ _ w _ w Hn).
  - intros Hcan Hnil Hk.
    apply (forEach_first_turn f w t l st fields prop rest Hds Hl Hps).
    rewrite Hturn.
    assert (Hn : rv_IsNil (RV v (PField l name)) w = Ret false w).
    { unfold rv_IsNil. rewrite (bind_Ret _ _ w _ w Hcur).
      destruct v as [| | | | |? [?|]| |? ? []|[?|]]; try discriminate;
        try reflexivity; now destruct Hk. }
    rewrite (bind_Ret _ _ w _ w Hn).
    assert (Hind : rv_Indirect (RV v (PField l name)) w = Ret (RV v (PField l name)) w).
    { unfold rv_Indirect. rewrite (bind_Ret _ _ w _ w Hcur).
      destruct v; try reflexivity; now destruct Hk. }
    rewrite (bind_Ret _ _ w _ w Hind), (bind_Ret _ _ w _ w HK).
    rewrite decide_False; [reflexivity|]. destruct v; discriminate.
  - intros Hcan. eexists.
    apply (forEach_first_turn_panics f w t l st fields prop rest Hds Hl Hps).
    rewrite Hturn. unfold rv_IsNil. rewrite bind_assoc.
    rewrite (bind_Ret _ _ w _ w Hcur).
    destruct v; try discriminate; reflexivity.
Qed.

Lemma path_through_a_field_witness :
  let v := VPtr (TLit "*Address") None in
  let w := Sample.no_address in
  (nil_value v = true ->
     forEach reset_field w = Ret (Some (newError "Pointer must not be nil.")) w)
  /\ (can_be_nil v = true -> nil_value v = false -> value_kind v <> KPtr ->
     forEach reset_field w = Ret (Some (newError "Pointer must point to a struct.")) w)
  /\ (can_be_nil v = false -> exists msg, forEach reset_field w = Panic msg w).
Proof.
  apply (path_through_a_field reset_field Sample.no_address (TLit "*Person") 0%nat
           (TDefined "Person") Form.person_fields 2%nat [] "Address.City"
           "Address" "City" [] (VPtr (TLit "*Address") None));
    vm_compute; reflexivity.
Defined.

(** ** What [Reset] shows *)


(** A path that resolves leads the walk to the field. *)
Lemma resolve_reached h prop names p l st fields l' name fv :
  h !! l = Some (VStruct st fields) ->
  (forall w, heap w = h -> rv_Kind p w = Ret KPtr w) ->
  resolve h names l fields = Some (l', name, fv) ->
  exists tail, heap_read tail
    /\ reached h prop names p (RV (VStruct st fields) (PHeap l))
         (RV fv (PField l' name)) tail.
Proof.
  revert p l st fields. induction names as [|n rest IH];
    intros p l st fields Hl Hp; cbn [resolve]; [discriminate|].
  destruct (lookup_field n fields) as [v|] eqn:Hv; [|discriminate].
  assert (Hfield : forall w, heap w = h ->
            rv_FieldByName (RV (VStruct st fields) (PHeap l)) n w
            = Ret (RV v (PField l n)) w).
  { intros w <-. rewrite (rv_FieldByName_record w l st fields n Hl).
    now rewrite Hv. }
  destruct rest as [|n2 rest].
  - intros [= <- <- <-]. exists (last_checks p).
    split; [apply heap_read_last_checks|].
    intros f w Hw. cbn [walk_names].
    rewrite (bind_Ret _ _ w _ w (Hfield w Hw)). cbn [rv_IsValid negb].
    unfold last_checks, after_field, bind, ret.
    destruct (f prop (RV v (PField l n)) w) as [[err|] w1|msg w1]; reflexivity.
  - destruct v as [| | | | |ty [l2|]| | |]; try discriminate.
    destruct (h !! l2) as [[| | | | | |st2 fields2| |]|] eqn:Hl2; try discriminate.
    intros Hres.
    assert (Hcur : forall w, heap w = h ->
              rv_current (RV (VPtr ty (Some l2)) (PField l n)) w
              = Ret (RV (VPtr ty (Some l2)) (PField l n)) w).
    { intros w <-. now apply (rv_current_field w l st fields). }
    assert (Hp' : forall w, heap w = h ->
              rv_Kind (RV (VPtr ty (Some l2)) (PField l n)) w = Ret KPtr w).
    { intros w Hw. unfold rv_Kind. now rewrite (bind_Ret _ _ w _ w (Hcur w Hw)). }
    destruct (IH _ l2 st2 fields2 Hl2 Hp' Hres) as (tail & Htail & Hreached).
    exists tail. split; [exact Htail|].
    intros f w Hw. cbn [walk_names].
    rewrite (bind_Ret _ _ w _ w (Hfield w Hw)). cbn [rv_IsValid negb].
    rewrite bind_assoc, (bind_Ret _ _ w _ w (Hp w Hw)).
    rewrite decide_True by reflexivity.
    rewrite (bind_Ret (ret _) _ w _ w eq_refl).
    assert (Hn : rv_IsNil (RV (VPtr ty (Some l2)) (PField l n)) w = Ret false w).
    { unfold rv_IsNil. now rewrite (bind_Ret _ _ w _ w (Hcur w Hw)). }
    rewrite (bind_Ret _ _ w _ w Hn).
    assert (Hind : rv_Indirect (RV (VPtr ty (Some l2)) (PField l n)) w
                   = Ret (RV (VStruct st2 fields2) (PHeap l2)) w).
    { unfold rv_Indirect. rewrite (bind_Ret _ _ w _ w (Hcur w Hw)).
      now rewrite Hw, Hl2. }
    rewrite (bind_Ret _ _ w _ w Hind).
    assert (Hk : rv_Kind (RV (VStruct st2 fields2) (PHeap l2)) w = Ret KStruct w).
    { assert (Hl2w : heap w !! l2 = Some (VStruct st2 fields2)) by now rewrite Hw.
      unfold rv_Kind.
      now rewrite (bind_Ret _ _ w _ w
                     (rv_current_record w l2 _ (VStruct st2 fields2) Hl2w)). }
    rewrite (bind_Ret _ _ w _ w Hk). rewrite decide_True by reflexivity.
    now apply Hreached.
Qed.



Lemma entry_blocks w widget p err :
  entry w widget p = Some err -> CanSubmit (db w) = false.
Proof.
  unfold entry, CanSubmit, ledger_empty. intros He.
  apply bool_decide_eq_false. rewrite map_size_empty_iff. intros Hempty.
  rewrite Hempty, lookup_empty in He. discriminate.
Qed.

(** X17.  An invalid value that [Reset] shows blocks [Submit]: when [Reset]
    returns without an error over a data source that is no nil pointer and
    leaves a registered property with a value its validator rejects, the
    binder is not eligible, and a [Submit] that follows is refused with
    [errValidationFailed] and changes nothing. *)
Theorem an_invalid_value_blocks_Submit pf w w' p validate err :
  Reset w = Ret None w' ->
  (forall t, dataSource (db w) <> Some (VPtr t None)) ->
  In p (properties (db w)) ->
  prop_validator (props w' p) = Some validate ->
  validate (prop_value (props w' p)) = Some err ->
  CanSubmit (db w') = false
  /\ Submit pf w' = Ret (Some ErrValidationFailed) w'.
Proof.
  intros Hrun Hnonnil Hin Hval Herr.
  apply forEach_inv in Hrun as [(t & Hsrc & _)|(s & _ & Hloop)];
    [now destruct (Hnonnil t)|].
  assert (Hcons : consistent w' p).
  { apply (for_range_err_all (fun p w1 => consistent w1 p) _ _
             (fun prop w1 w2 Hturn =>
                let H := reset_turn prop _ _ w1 w2 Hturn in
                conj (proj1 H) (proj1 (proj2 H))) w w' Hloop p Hin). }
  specialize (Hcons validate Hval). rewrite Herr in Hcons.
  pose proof (entry_blocks _ _ _ _ Hcons) as Hno.
  split; [exact Hno|]. now rewrite Submit_unfold, Hno.
Qed.

Lemma an_invalid_value_blocks_Submit_witness :
  let w' := final_world (Reset Sample.validated) in
  CanSubmit (db w') = false
  /\ Submit amd64 w' = Ret (Some ErrValidationFailed) w'.
Proof.
  apply (an_invalid_value_blocks_Submit amd64 Sample.validated
           (final_world (Reset Sample.validated)) 5%nat Sample.reject
           (OtherError "invalid")).
  - vm_compute. reflexivity.
  - intros t Ht. vm_compute in Ht. discriminate.
  - vm_compute. tauto.
  - vm_compute. reflexivity.
  - vm_compute. reflexivity.
Defined.

(** ** What [Submit] stores *)









(** X20.  What is not reported as an error: when the property's value is
    no number and is of another kind than the field, or the field is not
    exported, [Submit]'s function panics, after reading the property and
    before any write; and [Reset]'s function panics on a field that is not
    exported, after reading the property and before any [Set]. *)
Theorem mistyped_values_and_unexported_fields_panic
  pf prop l name w st fields v fv v0 :
  heap w !! l = Some (VStruct st fields) ->
  lookup_field name fields = Some fv ->
  (is_exported name = false ->
     exists msg, reset_field prop (RV v0 (PField l name)) w
                 = Panic msg (emit (EGet prop) w))
  /\ (prop_value (props w prop) = Some v ->
      as_float64 (Some v) = None ->
      (forall e, v <> VError e) ->
      is_exported name = false
      \/ (value_kind fv <> KInterface /\ value_kind v <> value_kind fv) ->
      exists msg, submit_field pf prop (RV v0 (PField l name)) w
                  = Panic msg (emit (EGet prop) w)).
Proof.
  intros Hl Hv.
  set (w1 := emit (EGet prop) w).
  assert (Hl1 : heap w1 !! l = Some (VStruct st fields)) by exact Hl.
  pose proof (rv_current_field w1 l st fields name _ v0 Hl1 Hv) as Hcur.
  split.
  - intros Hex. unfold reset_field.
    rewrite (bind_Ret _ _ w _ w1 eq_refl).
    assert (Hi : exists msg, rv_Interface (RV v0 (PField l name)) w1 = Panic msg w1).
    { unfold rv_Interface. rewrite (bind_Ret _ _ w1 _ w1 Hcur).
      cbn [read_only]. rewrite Hex. cbn. eauto. }
    destruct Hi as [msg Hi]. exists msg.
    destruct (as_float64 _); rewrite bind_assoc; unfold bind; now rewrite Hi.
  - intros Hval Hnf Hne Hcase. unfold submit_field.
    rewrite (bind_Ret _ _ w _ w1 eq_refl). rewrite Hval.
    assert (Hgoal : exists msg,
      (run rv_Set (RV v0 (PField l name)) v in ret (None : option error)) w1
      = Panic msg w1).
    { unfold rv_Set. rewrite bind_assoc, (bind_Ret _ _ w1 _ w1 Hcur).
      cbn [rv_CanSet]. destruct (is_exported name) eqn:Hex.
      - destruct Hcase as [?|[Hni Hty]]; [discriminate|].
        destruct fv; try (now destruct Hni);
          (rewrite decide_False by (intros [? _]; contradiction)); cbn; eauto.
      - destruct fv; cbn; eauto. }
    destruct v as [| |[] []| | | | | |]; try exact Hgoal; try discriminate.
    now destruct (Hne e).
Qed.

Lemma mistyped_values_and_unexported_fields_panic_witness :
  let w := Sample.number_box 30 in
  let field := RV (VInt KInt64 TBasic 30) (PField 0%nat "Age") in
  (is_exported "Age" = false ->
     exists msg, reset_field 0%nat field w = Panic msg (emit (EGet 0%nat) w))
  /\ (prop_value (props w 0%nat) = Some (Sample.str "") ->
      as_float64 (Some (Sample.str "")) = None ->
      (forall e, Sample.str "" <> VError e) ->
      is_exported "Age" = false
      \/ (value_kind (VInt KInt64 TBasic 30) <> KInterface
          /\ value_kind (Sample.str "") <> value_kind (VInt KInt64 TBasic 30)) ->
      exists msg, submit_field amd64 0%nat field w = Panic msg (emit (EGet 0%nat) w)).
Proof.
  apply (mistyped_values_and_unexported_fields_panic amd64 0%nat 0%nat "Age"
           (Sample.number_box 30) (TDefined "Person") Form.person_fields
           (Sample.str "") (VInt KInt64 TBasic 30) (VInt KInt64 TBasic 30));
    vm_compute; reflexivity.
Defined.

(** ** Numbers and errors in [Submit] *)



(** X22.  A number is not stored in a field that is no number: when the
    property holds a [float64] and the field is of no integer or
    floating-point kind, [Submit]'s function returns the error that names
    the property's source and the field's type, and writes nothing. *)
Theorem Submit_rejects_a_number_for_another_field
  pf prop l name w st fields fv f v0 src :
  prop_value (props w prop) = float64_value f ->
  prop_source (props w prop) = Some (VString TBasic src) ->
  heap w !! l = Some (VStruct st fields) ->
  lookup_field name fields = Some fv ->
  is_number_kind (value_kind fv) = false ->
  submit_field pf prop (RV v0 (PField l name)) w =
  Ret (Some (newError ("Field '" ++ src ++ "': Can't convert float64 to "
                       ++ value_type_name fv ++ ".")))
      (emit (EGet prop) w).
Proof.
  intros Hval Hsrc Hl Hv Hk. unfold submit_field.
  rewrite (bind_Ret _ _ w _ (emit (EGet prop) w) eq_refl).
  rewrite Hval. cbn [float64_value].
  set (w1 := emit (EGet prop) w).
  assert (Hl1 : heap w1 !! l = Some (VStruct st fields)) by exact Hl.
  pose proof (rv_current_field w1 l st fields name _ v0 Hl1 Hv) as Hcur.
  assert (HK : rv_Kind (RV v0 (PField l name)) w1 = Ret (value_kind fv) w1).
  { unfold rv_Kind. now rewrite (bind_Ret _ _ w1 _ w1 Hcur). }
  assert (HT : rv_TypeName (RV v0 (PField l name)) w1 = Ret (value_type_name fv) w1).
  { unfold rv_TypeName. now rewrite (bind_Ret _ _ w1 _ w1 Hcur). }
  assert (HS : prop_Source_string prop w1 = Ret src w1).
  { now apply prop_Source_string_Ret. }
  rewrite (bind_Ret _ _ w1 _ w1 HK).
  destruct (value_kind fv); try discriminate;
    now rewrite (bind_Ret _ _ w1 _ w1 HS), (bind_Ret _ _ w1 _ w1 HT).
Qed.

Lemma Submit_rejects_a_number_for_another_field_witness :
  submit_field amd64 0%nat (RV (Sample.str "Ann") (PField 0%nat "Name"))
    Form.number_in_text_box =
  Ret (Some (newError "Field 'Name': Can't convert float64 to string."))
      (emit (EGet 0%nat) Form.number_in_text_box).
Proof.
  apply (Submit_rejects_a_number_for_another_field amd64 0%nat 0%nat "Name"
           Form.number_in_text_box (TDefined "Person") Form.person_fields
           (Sample.str "Ann") Form.two_and_three_quarters (Sample.str "Ann") "Name");
    vm_compute; reflexivity.
Defined.

(** X23.  An error that a property holds as its value ends [Submit]: when
    the binder is eligible and the first registered property, whose path
    leads to a field, holds an error, [Submit] returns that error after
    reading the property, and writes nothing. *)
Theorem Submit_returns_the_error_a_property_holds
  pf w t l st fields prop rest path l' name fv e :
  CanSubmit (db w) = true ->
  dataSource (db w) = Some (VPtr t (Some l)) ->
  heap w !! l = Some (VStruct st fields) ->
  properties (db w) = prop :: rest ->
  prop_source (props w prop) = Some (VString TBasic path) ->
  resolve (heap w) (split_dots path) l fields = Some (l', name, fv) ->
  prop_value (props w prop) = Some (VError e) ->
  Submit pf w = Ret (Some e) (emit (EGet prop) w).
Proof.
  intros Hcan Hds Hl Hps Hsrc Hres Hval.
  rewrite Submit_unfold, Hcan.
  rewrite (forEach_over_record _ w t l st fields Hds Hl), Hps.
  cbn [for_range_err]. unfold turn.
  rewrite bind_assoc, (bind_Ret _ _ w _ w (prop_Source_string_Ret _ _ _ Hsrc)).
  destruct (resolve_reached (heap w) prop (split_dots path)
              (RV (VPtr t (Some l)) PNone) l st fields l' name fv Hl
              (fun w0 _ => eq_refl) Hres) as (tail & _ & Hreached).
  unfold bind at 1. rewrite (Hreached (submit_field pf) w eq_refl).
  unfold submit_field. rewrite bind_assoc.
  rewrite (bind_Ret _ _ w _ (emit (EGet prop) w) eq_refl). now rewrite Hval.
Qed.

Lemma Submit_returns_the_error_a_property_holds_witness :
  Submit amd64 Form.failed_box =
  Ret (Some (OtherError "no text")) (emit (EGet 0%nat) Form.failed_box).
Proof.
  apply (Submit_returns_the_error_a_property_holds amd64 Form.failed_box
           (TLit "*Person") 0%nat (TDefined "Person") Form.person_fields
           0%nat [1%nat] "Name" 0%nat "Name" (Sample.str "Ann")
           (OtherError "no text"));
    vm_compute; reflexivity.
Defined.

(** ** Binding paths *)

Lemma split_dots_cons a path :
  split_dots (String a path) =
  if decide (a = "."%char) then EmptyString :: split_dots path
  else match split_dots path with
       | [] => [String a EmptyString]
       | name :: names => String a name :: names
       end.
Proof. reflexivity. Qed.

(** X24.  How a binding path is split: at every dot.  No name has a dot,
    the names joined by dots are the path, and there is always at least
    one name -- the empty path is the one empty name. *)
Theorem split_dots_round_trip path :
  join_dots (split_dots path) = path
  /\ Forall (fun name => has_dot name = false) (split_dots path)
  /\ split_dots path <> [].
Proof.
  split; [|split; [|apply split_dots_nonempty]].
  - induction path as [|a path IH]; [reflexivity|].
    rewrite split_dots_cons. pose proof (split_dots_nonempty path) as Hne.
    destruct (split_dots path) as [|n ns] eqn:Hs; [done|].
    destruct (decide (a = "."%char)) as [->|Hna].
    + change (join_dots (EmptyString :: n :: ns))
        with (String "."%char (join_dots (n :: ns))).
      now rewrite IH.
    + rewrite <- IH. now destruct ns.
  - induction path as [|a path IH]; [repeat constructor|].
    rewrite split_dots_cons. pose proof (split_dots_nonempty path) as Hne.
    destruct (decide (a = "."%char)) as [->|Hna].
    + constructor; [reflexivity|exact IH].
    + destruct (split_dots path) as [|n ns] eqn:Hs; [done|].
      apply Forall_cons in IH as [Hn Hns]. constructor; [|exact Hns].
      cbn. now rewrite decide_False.
Qed.

(** ** Two more failures *)





